(** * RFM customer segmentation ([online_retail.py])

    The script is a linear batch job over one pandas table: clean the
    transaction log, aggregate it per customer into Recency, Frequency and
    Monetary, bin each metric into quintile scores and map the scores to a
    named segment.  The table is modelled as a list of rows whose cells are
    dynamically typed, the way a DataFrame holds them; the pandas calls the
    script makes are modelled in [Module Pandas] after their documented
    behaviour, and the script's own steps follow the source line by line.

    Numbers are idealised: an int64 is an unbounded integer and a float64 an
    exact rational, so no overflow and no rounding is modelled. *)

From Stdlib Require Import String Ascii DecimalString.
From Stdlib Require Import ZArith QArith Qround Bool Lia.
From Stdlib Require Import List Permutation Sorted.
Import ListNotations.
Local Open Scope Z_scope.

(** ** Errors and outcomes *)

(** The exceptions the script can run into. *)
Inductive error : Type :=
| BinEdgesNotUnique   (* ValueError of [pd.qcut]: "Bin edges must be unique" *)
| IntCastingNaN.      (* [astype(int)] on a column that holds NaN *)

Inductive result (A : Type) : Type :=
| Ok (a : A)
| Raise (e : error).
Arguments Ok {A} a.
Arguments Raise {A} e.

(** ** The pandas operations the script calls *)

Module Pandas.

(** A cell of a DataFrame. [NA] stands for NaN, None and NaT alike: pandas'
    [isna] does not tell them apart. *)
Inductive value : Type :=
| NA
| Int (z : Z)          (* int64 *)
| Float (q : Q)        (* float64 *)
| Str (s : string)     (* object column holding text *)
| Timestamp (t : Z).   (* datetime64[ns]: nanoseconds since the epoch *)

(** The text-to-number and text-to-date conversions are pandas' own and are
    taken as parameters. [None] means that the text does not parse. *)
Record Parsers : Type := {
  str_to_numeric : string -> option Q;
  str_to_datetime : string -> option Z;
  num_to_datetime : Q -> option Z
}.

Definition isna (v : value) : bool :=
  match v with NA => true | _ => false end.

Definition notna (v : value) : bool := negb (isna v).

(** The number a numeric cell holds. *)
Definition numeric (v : value) : option Q :=
  match v with
  | Int z => Some (inject_Z z)
  | Float q => Some q
  | _ => None
  end.

(** Equality of cells as [duplicated] and [nunique] see it: numbers by
    value, NaN equal to NaN. *)
Definition value_eqb (v w : value) : bool :=
  match v, w with
  | NA, NA => true
  | Str s, Str s' => String.eqb s s'
  | Timestamp t, Timestamp t' => Z.eqb t t'
  | _, _ =>
      match numeric v, numeric w with
      | Some a, Some b => Qeq_bool a b
      | _, _ => false
      end
  end.

(** [pd.to_numeric(col, errors='coerce')], cell by cell. *)
Definition to_numeric (P : Parsers) (v : value) : value :=
  match v with
  | NA => NA
  | Int z => Int z
  | Float q => Float q
  | Str s => match str_to_numeric P s with Some q => Float q | None => NA end
  | Timestamp t => Int t
  end.

(** [pd.to_datetime(col, errors='coerce')], cell by cell. *)
Definition to_datetime (P : Parsers) (v : value) : value :=
  match v with
  | NA => NA
  | Timestamp t => Timestamp t
  | Str s => match str_to_datetime P s with Some t => Timestamp t | None => NA end
  | Int z => match num_to_datetime P (inject_Z z) with Some t => Timestamp t | None => NA end
  | Float q => match num_to_datetime P q with Some t => Timestamp t | None => NA end
  end.

(** [col.astype(int)] on a numeric cell: the fractional part is discarded. *)
Definition astype_int (v : value) : value :=
  match v with
  | Float q => Int (Z.quot (Qnum q) (Zpos (Qden q)))
  | _ => v
  end.

(** [col.astype(str).str.startswith('C')]. Only text can start with the
    letter: the renderings of numbers, of NaN and of timestamps begin with a
    digit, a sign or a lower-case letter. *)
Definition str_startswith_C (v : value) : bool :=
  match v with
  | Str s => String.prefix "C" s
  | _ => false
  end.

(** [col > c]; a comparison with NaN is False. *)
Definition gt (v : value) (c : Q) : bool :=
  match numeric v with
  | Some q => negb (Qle_bool q c)
  | None => false
  end.

(** [a * b] on two numeric cells. *)
Definition mul (v w : value) : value :=
  match v, w with
  | Int a, Int b => Int (a * b)
  | _, _ =>
      match numeric v, numeric w with
      | Some a, Some b => Float (a * b)
      | _, _ => NA
      end
  end.

(** Keep the first occurrence of every element, as [drop_duplicates] and
    [unique] do; [seen] holds the elements met so far. *)
Fixpoint unique_from {A : Type} (eqb : A -> A -> bool) (seen l : list A) : list A :=
  match l with
  | [] => []
  | x :: rest =>
      if existsb (eqb x) seen then unique_from eqb seen rest
      else x :: unique_from eqb (x :: seen) rest
  end.

Definition unique {A : Type} (eqb : A -> A -> bool) (l : list A) : list A :=
  unique_from eqb [] l.

(** [col.nunique()]: the number of distinct non-null cells. *)
Definition nunique (col : list value) : Z :=
  Z.of_nat (length (unique value_eqb (filter notna col))).

(** [col.sum()], nulls skipped. *)
Fixpoint sum (col : list value) : Q :=
  match col with
  | [] => 0%Q
  | v :: rest =>
      match numeric v with
      | Some q => (q + sum rest)%Q
      | None => sum rest
      end
  end.

(** [col.max()] of a datetime column, NaT skipped; NaT when nothing is left. *)
Fixpoint max_timestamp (col : list value) : value :=
  match col with
  | [] => NA
  | v :: rest =>
      match v, max_timestamp rest with
      | Timestamp t, Timestamp m => Timestamp (Z.max t m)
      | Timestamp t, _ => Timestamp t
      | _, m => m
      end
  end.

(** One day, the unit of [pd.Timedelta(days=1)], in nanoseconds. *)
Definition day_ns : Z := 86400 * 1000000000.

(** [ts + pd.Timedelta(days=1)]; NaT stays NaT. *)
Definition add_one_day (ts : value) : value :=
  match ts with
  | Timestamp t => Timestamp (t + day_ns)
  | _ => NA
  end.

(** [(a - b).days]: whole days, rounded down; NaN when either side is NaT. *)
Definition days_between (a b : value) : option Z :=
  match a, b with
  | Timestamp ta, Timestamp tb => Some ((ta - tb) / day_ns)
  | _, _ => None
  end.

(** *** Ranking and quantile binning *)

(** The non-null entries of a numeric column. *)
Fixpoint dropna (col : list (option Q)) : list Q :=
  match col with
  | [] => []
  | Some x :: rest => x :: dropna rest
  | None :: rest => dropna rest
  end.

Definition Qltb (a b : Q) : bool := negb (Qle_bool b a).

Definition count {A : Type} (f : A -> bool) (l : list A) : nat :=
  length (filter f l).

(** [col.rank(method="first")]: the rank of an entry is its position, from
    1, in the ascending order of the non-null entries, equal entries taking
    their ranks in the order they appear in the column. So an entry is
    ranked after every smaller entry and after every equal entry that comes
    before it. A null entry has no rank. [all] is the whole column without
    its nulls, [before] the non-null entries already passed. *)
Fixpoint rank_first_from (all before : list Q) (after : list (option Q))
  : list (option Q) :=
  match after with
  | [] => []
  | None :: rest => None :: rank_first_from all before rest
  | Some x :: rest =>
      Some (inject_Z (1 + Z.of_nat (count (fun y => Qltb y x) all)
                        + Z.of_nat (count (Qeq_bool x) before)))
      :: rank_first_from all (before ++ [x]) rest
  end.

Definition rank_first (col : list (option Q)) : list (option Q) :=
  rank_first_from (dropna col) [] col.

Fixpoint insert_sorted (x : Q) (l : list Q) : list Q :=
  match l with
  | [] => [x]
  | y :: rest => if Qle_bool x y then x :: l else y :: insert_sorted x rest
  end.

Fixpoint sort (l : list Q) : list Q :=
  match l with
  | [] => []
  | x :: rest => insert_sorted x (sort rest)
  end.

(** The quantile at [k/q] of a sorted column, by linear interpolation
    between the two nearest entries (the default of [Series.quantile]);
    NaN on an empty column. *)
Definition quantile (sorted : list Q) (q k : nat) : option Q :=
  match sorted with
  | [] => None
  | x0 :: _ =>
      let n := Z.of_nat (length sorted) in
      let h := (Z.of_nat k * (n - 1)) # (Pos.of_nat q) in
      let lo := Qfloor h in
      let a := nth (Z.to_nat lo) sorted x0 in
      let b := nth (Z.to_nat (Z.min (lo + 1) (n - 1))) sorted x0 in
      Some (a + (h - inject_Z lo) * (b - a))%Q
  end.

(** Equality of bin edges; NaN edges count as one value. *)
Definition edge_eqb (a b : option Q) : bool :=
  match a, b with
  | Some x, Some y => Qeq_bool x y
  | None, None => true
  | _, _ => false
  end.

(** [bins.searchsorted(v, side="left")]: how many edges lie strictly below
    [v]. *)
Definition searchsorted_left (bins : list (option Q)) (v : Q) : nat :=
  count (fun b => match b with Some e => Qltb e v | None => false end) bins.

(** The label of one entry: bin [i] takes the entries in
    [(bins[i-1], bins[i]]], the lowest edge included in bin 1. *)
Definition cut (bins : list (option Q)) (labels : list Z) (xi : option Q)
  : option Z :=
  match xi with
  | None => None
  | Some v =>
      let ids :=
        if edge_eqb (Some v) (hd None bins) then 1%nat
        else searchsorted_left bins v in
      if (ids =? 0)%nat || (ids =? length bins)%nat then None
      else nth_error labels (ids - 1)
  end.

(** [pd.qcut(x, q, labels=labels)]: the edges are the quantiles at
    [0, 1/q, ..., 1] of the non-null entries; edges that are not pairwise
    distinct raise. *)
Definition qcut (x : list (option Q)) (q : nat) (labels : list Z)
  : result (list (option Z)) :=
  let sorted := sort (dropna x) in
  let bins := map (quantile sorted q) (seq 0 (q + 1)) in
  if (length (unique edge_eqb bins) <? length bins)%nat
     && negb (length bins =? 2)%nat
  then Raise BinEdgesNotUnique
  else Ok (map (cut bins labels) x).

(** Ascending order of the group keys, as [groupby] sorts them. *)
Fixpoint insert_key (k : Z) (l : list Z) : list Z :=
  match l with
  | [] => [k]
  | y :: rest => if k <=? y then k :: l else y :: insert_key k rest
  end.

Fixpoint sort_keys (l : list Z) : list Z :=
  match l with
  | [] => []
  | k :: rest => insert_key k (sort_keys rest)
  end.

End Pandas.

(** ** The script *)

Import Pandas.

(** A row of the transaction table. The script names five columns; the
    columns it never names are kept in [others], since [drop_duplicates]
    compares them too. [TotalPrice] is absent until line 26 adds it. *)
Record row : Type := {
  InvoiceNo : value;
  Quantity : value;
  InvoiceDate : value;
  UnitPrice : value;
  CustomerID : value;
  others : list value;
  TotalPrice : option value
}.

Definition DataFrame : Type := list row.

Fixpoint list_eqb {A : Type} (eqb : A -> A -> bool) (l l' : list A) : bool :=
  match l, l' with
  | [], [] => true
  | x :: t, y :: t' => eqb x y && list_eqb eqb t t'
  | _, _ => false
  end.

Definition option_eqb {A : Type} (eqb : A -> A -> bool) (a b : option A) : bool :=
  match a, b with
  | Some x, Some y => eqb x y
  | None, None => true
  | _, _ => false
  end.

(** Two rows are duplicates when they agree on every column. *)
Definition row_eqb (r r' : row) : bool :=
  value_eqb (InvoiceNo r) (InvoiceNo r')
  && value_eqb (Quantity r) (Quantity r')
  && value_eqb (InvoiceDate r) (InvoiceDate r')
  && value_eqb (UnitPrice r) (UnitPrice r')
  && value_eqb (CustomerID r) (CustomerID r')
  && list_eqb value_eqb (others r) (others r')
  && option_eqb value_eqb (TotalPrice r) (TotalPrice r').

(** *** Step 1: data cleaning (lines 12 to 26) *)

(** Line 12. *)
Definition drop_duplicates (df : DataFrame) : DataFrame := unique row_eqb df.

(** Lines 14 to 16. *)
Definition coerce_numeric (P : Parsers) (r : row) : row :=
  {| InvoiceNo := InvoiceNo r;
     Quantity := to_numeric P (Quantity r);
     InvoiceDate := InvoiceDate r;
     UnitPrice := to_numeric P (UnitPrice r);
     CustomerID := to_numeric P (CustomerID r);
     others := others r;
     TotalPrice := TotalPrice r |}.

(** Line 18: the rows [dropna] keeps. *)
Definition has_required (r : row) : bool :=
  notna (CustomerID r) && notna (Quantity r)
  && notna (UnitPrice r) && notna (InvoiceDate r).

(** Lines 20 and 21. Line 18 has left only numbers in [CustomerID], so the
    cast of line 20 cannot meet a NaN. *)
Definition convert_types (P : Parsers) (r : row) : row :=
  {| InvoiceNo := InvoiceNo r;
     Quantity := Quantity r;
     InvoiceDate := to_datetime P (InvoiceDate r);
     UnitPrice := UnitPrice r;
     CustomerID := astype_int (CustomerID r);
     others := others r;
     TotalPrice := TotalPrice r |}.

(** Line 23. *)
Definition not_cancelled (r : row) : bool :=
  negb (str_startswith_C (InvoiceNo r)).

(** Line 24. *)
Definition positive (r : row) : bool :=
  gt (Quantity r) 0 && gt (UnitPrice r) 0.

(** Line 26. *)
Definition add_total_price (r : row) : row :=
  {| InvoiceNo := InvoiceNo r;
     Quantity := Quantity r;
     InvoiceDate := InvoiceDate r;
     UnitPrice := UnitPrice r;
     CustomerID := CustomerID r;
     others := others r;
     TotalPrice := Some (mul (Quantity r) (UnitPrice r)) |}.

Definition clean (P : Parsers) (df : DataFrame) : DataFrame :=
  let df := drop_duplicates df in
  let df := map (coerce_numeric P) df in
  let df := filter has_required df in
  let df := map (convert_types P) df in
  let df := filter not_cancelled df in
  let df := filter positive df in
  map add_total_price df.

(** *** Step 2: the reference date (line 31) *)

Definition reference_date (df : DataFrame) : value :=
  add_one_day (max_timestamp (map InvoiceDate df)).

(** *** Step 3: the RFM metrics (lines 36 to 46) *)

(** A row of [rfm]. [Recency] is NaN ([None]) for a customer none of whose
    rows has a date. *)
Record rfm_row : Type := {
  rfm_CustomerID : Z;
  Recency : option Z;
  Frequency : Z;
  Monetary : Q
}.

(** Line 20 has made [CustomerID] an int64 column; a row with any other
    cell there belongs to no group. *)
Definition customer_key (r : row) : option Z :=
  match CustomerID r with
  | Int z => Some z
  | _ => None
  end.

Fixpoint customer_keys (df : DataFrame) : list Z :=
  match df with
  | [] => []
  | r :: rest =>
      match customer_key r with
      | Some z => z :: customer_keys rest
      | None => customer_keys rest
      end
  end.

(** The keys of [df.groupby('CustomerID')], each once, ascending. *)
Definition group_keys (df : DataFrame) : list Z :=
  sort_keys (unique Z.eqb (customer_keys df)).

Definition in_group (k : Z) (r : row) : bool :=
  match customer_key r with
  | Some z => z =? k
  | None => false
  end.

Definition group (df : DataFrame) (k : Z) : DataFrame :=
  filter (in_group k) df.

Definition total_price (r : row) : value :=
  match TotalPrice r with
  | Some v => v
  | None => NA
  end.

(** The three aggregations of one group. *)
Definition rfm_of_group (reference_date : value) (k : Z) (g : DataFrame) : rfm_row :=
  {| rfm_CustomerID := k;
     Recency := days_between reference_date (max_timestamp (map InvoiceDate g));
     Frequency := nunique (map InvoiceNo g);
     Monetary := sum (map total_price g) |}.

Definition aggregate (reference_date : value) (df : DataFrame) : list rfm_row :=
  map (fun k => rfm_of_group reference_date k (group df k)) (group_keys df).

(** *** Step 4: the RFM scores (lines 51 to 56) *)

(** The metric columns as qcut reads them. *)
Definition Recency_column (rfm : list rfm_row) : list (option Q) :=
  map (fun c => option_map inject_Z (Recency c)) rfm.

Definition Frequency_column (rfm : list rfm_row) : list (option Q) :=
  map (fun c => Some (inject_Z (Frequency c))) rfm.

Definition Monetary_column (rfm : list rfm_row) : list (option Q) :=
  map (fun c => Some (Monetary c)) rfm.

(** Lines 51 to 53. *)
Definition R_scores (rfm : list rfm_row) : result (list (option Z)) :=
  qcut (rank_first (Recency_column rfm)) 5 [5; 4; 3; 2; 1].

Definition F_scores (rfm : list rfm_row) : result (list (option Z)) :=
  qcut (rank_first (Frequency_column rfm)) 5 [1; 2; 3; 4; 5].

Definition M_scores (rfm : list rfm_row) : result (list (option Z)) :=
  qcut (rank_first (Monetary_column rfm)) 5 [1; 2; 3; 4; 5].

Record scored_row : Type := {
  customer : rfm_row;
  R_score : Z;
  F_score : Z;
  M_score : Z;
  RFM_Segment : string;
  RFM_Score : Z
}.

Definition bind {A B : Type} (m : result A) (k : A -> result B) : result B :=
  match m with
  | Ok a => k a
  | Raise e => Raise e
  end.

Notation "x <- m ;; k" := (bind m (fun x => k))
  (at level 61, m at next level, right associativity).

(** [str(score)] of an integer score. *)
Definition score_str (s : Z) : string := NilZero.string_of_int (Z.to_int s).

(** The row of a customer whose three scores are integers. *)
Definition with_scores (c : rfm_row) (r f m : Z) : scored_row :=
  {| customer := c;
     R_score := r; F_score := f; M_score := m;
     RFM_Segment := (score_str r ++ score_str f ++ score_str m)%string;
     RFM_Score := r + f + m |}.

(** Lines 55 and 56 for one customer. A score that is NaN cannot be cast by
    [astype(int)]. *)
Definition score_row (c : rfm_row) (r f m : option Z) : result scored_row :=
  match r, f, m with
  | Some r, Some f, Some m => Ok (with_scores c r f m)
  | _, _, _ => Raise IntCastingNaN
  end.

Fixpoint score_rows (rfm : list rfm_row) (rs fs ms : list (option Z))
  : result (list scored_row) :=
  match rfm, rs, fs, ms with
  | c :: rfm', r :: rs', f :: fs', m :: ms' =>
      row <- score_row c r f m ;;
      rows <- score_rows rfm' rs' fs' ms' ;;
      Ok (row :: rows)
  | _, _, _, _ => Ok []
  end.

Definition assign_scores (rfm : list rfm_row) : result (list scored_row) :=
  rs <- R_scores rfm ;;
  fs <- F_scores rfm ;;
  ms <- M_scores rfm ;;
  score_rows rfm rs fs ms.

(** *** Step 5: customer segmentation (lines 61 to 74) *)

Definition segment_customer (row : scored_row) : string :=
  let r := R_score row in
  let f := F_score row in
  let m := M_score row in
  if (r >=? 4) && (f >=? 4) then "Champions"
  else if (r >=? 3) && (f >=? 3) then "Loyal Customers"
  else if (r >=? 3) && (f <=? 2) then "Potential Loyalist"
  else if (r <=? 2) && (f >=? 3) then "At Risk"
  else "Others".

Record segmented_row : Type := {
  scored : scored_row;
  Segment : string
}.

(** Line 74. *)
Definition add_segment (row : scored_row) : segmented_row :=
  {| scored := row; Segment := segment_customer row |}.

(** *** The run *)

(** The steps of the script, in the order it runs them. *)
Inductive stage : Type :=
| Cleaning | ReferenceDate | Aggregation | Scoring | Segmentation.

Definition stage_index (s : stage) : nat :=
  match s with
  | Cleaning => 1
  | ReferenceDate => 2
  | Aggregation => 3
  | Scoring => 4
  | Segmentation => 5
  end.

Inductive outcome : Type :=
| Completed (table : list segmented_row)
| Aborted (at_stage : stage) (e : error).

(** Lines 12 to 74 on the loaded table. Only Step 4 can raise. *)
Definition run (P : Parsers) (raw : DataFrame) : outcome :=
  let df := clean P raw in
  let reference_date := reference_date df in
  let rfm := aggregate reference_date df in
  match assign_scores rfm with
  | Raise e => Aborted Scoring e
  | Ok table => Completed (map add_segment table)
  end.

(** ** The specification's wording, for comparison *)

(** The classifier as an ordered decision list over the Recency and the
    Frequency score: the first rule that matches gives the label. *)
Definition decision_list : list ((Z -> Z -> bool) * string) :=
  [ (fun r f => (4 <=? r) && (4 <=? f), "Champions"%string);
    (fun r f => (3 <=? r) && (3 <=? f), "Loyal Customers"%string);
    (fun r f => (3 <=? r) && (f <=? 2), "Potential Loyalist"%string);
    (fun r f => (r <=? 2) && (3 <=? f), "At Risk"%string) ].

Fixpoint first_match (rules : list ((Z -> Z -> bool) * string))
  (otherwise : string) (r f : Z) : string :=
  match rules with
  | [] => otherwise
  | (applies, label) :: rest =>
      if applies r f then label else first_match rest otherwise r f
  end.

Definition classify_by_rules (r f m : Z) : string :=
  first_match decision_list "Others" r f.

Definition segment_labels : list string :=
  [ "Champions"; "Loyal Customers"; "Potential Loyalist"; "At Risk"; "Others" ]%string.

(** The scorer as the design notes word it: rank stably, then bucket by
    position. The stable rank of an entry is one more than the number of
    smaller entries plus the number of equal entries before it. *)
Fixpoint stable_ranks_from (all before after : list Q) : list Z :=
  match after with
  | [] => []
  | x :: rest =>
      (1 + Z.of_nat (count (fun y => Qltb y x) all)
         + Z.of_nat (count (Qeq_bool x) before))
      :: stable_ranks_from all (before ++ [x]) rest
  end.

Definition stable_ranks (xs : list Q) : list Z := stable_ranks_from xs [] xs.

(** The quintile of the position [r] among [n] ranked customers: the first
    of five buckets whose upper edge [1 + k (n - 1) / 5] reaches [r]. *)
Definition quintile (n r : Z) : Z :=
  if 5 * (r - 1) <=? 1 * (n - 1) then 1
  else if 5 * (r - 1) <=? 2 * (n - 1) then 2
  else if 5 * (r - 1) <=? 3 * (n - 1) then 3
  else if 5 * (r - 1) <=? 4 * (n - 1) then 4
  else 5.

(** The [k]-th of the six quintile edges of the positions [1 .. n]. *)
Definition edge (n k : nat) : Q :=
  (1 + ((Z.of_nat k * (Z.of_nat n - 1)) # 5))%Q.

(** The scores of a column of metrics: direct, the highest quintile scoring
    5, and inverted, the lowest quintile scoring 5. *)
Definition direct_scores (xs : list Q) : list Z :=
  map (quintile (Z.of_nat (length xs))) (stable_ranks xs).

Definition inverted_scores (xs : list Q) : list Z :=
  map (fun r => 6 - quintile (Z.of_nat (length xs)) r) (stable_ranks xs).

(** The metric columns of a customer table as plain numbers. *)
Definition Recency_values (rfm : list rfm_row) : list Q :=
  dropna (Recency_column rfm).

Definition Frequency_values (rfm : list rfm_row) : list Q :=
  map (fun c => inject_Z (Frequency c)) rfm.

Definition Monetary_values (rfm : list rfm_row) : list Q :=
  map Monetary rfm.

(** The scored table: each customer with its three scores. *)
Fixpoint scored_table (rfm : list rfm_row) (rs fs ms : list Z) : list scored_row :=
  match rfm, rs, fs, ms with
  | c :: rfm', r :: rs', f :: fs', m :: ms' =>
      with_scores c r f m :: scored_table rfm' rs' fs' ms'
  | _, _, _, _ => []
  end.



(** The positions [1 .. n]. *)
Definition positions (n : nat) : list Z := map Z.of_nat (seq 1 n).



(** The invariant of a cleaned record, as the data model words it: quantity
    and unit price positive, the customer identifier an integer, the
    timestamp a date, the invoice not a cancellation. *)
Definition CleanTransaction (r : row) : bool :=
  gt (Quantity r) 0 && gt (UnitPrice r) 0
  && match CustomerID r with Int _ => true | _ => false end
  && match InvoiceDate r with Timestamp _ => true | _ => false end
  && negb (str_startswith_C (InvoiceNo r)).

(** What the code guarantees of a row it has cleaned. The date is either a
    timestamp or NaT: line 21 parses the dates after line 18 has dropped the
    nulls. *)
Definition Cleaned (r : row) : Prop :=
  gt (Quantity r) 0 = true
  /\ gt (UnitPrice r) 0 = true
  /\ (exists z, CustomerID r = Int z)
  /\ (InvoiceDate r = NA \/ exists t, InvoiceDate r = Timestamp t)
  /\ str_startswith_C (InvoiceNo r) = false
  /\ TotalPrice r = Some (mul (Quantity r) (UnitPrice r)).

(** Rows no two of which are duplicates of each other. *)
Definition pairwise_distinct (df : DataFrame) : Prop :=
  ForallOrdPairs (fun r r' => row_eqb r' r = false) df.

(** The totals the aggregation is checked against. *)
Definition total_Frequency (rfm : list rfm_row) : Z :=
  fold_right Z.add 0 (map Frequency rfm).

Definition total_Monetary (rfm : list rfm_row) : Q :=
  fold_right Qplus 0%Q (map Monetary rfm).

Definition distinct_invoices (df : DataFrame) : Z :=
  nunique (map InvoiceNo df).

(** The invoice identifiers [nunique] counts: the non-null ones. *)
Definition invoices (df : DataFrame) : list value :=
  filter notna (map InvoiceNo df).

Definition total_of_prices (df : DataFrame) : Q :=
  sum (map total_price df).

(** No invoice identifier occurs under two customers. *)
Definition invoices_of_one_customer (df : DataFrame) : Prop :=
  forall r r', In r df -> In r' df ->
    value_eqb (InvoiceNo r) (InvoiceNo r') = true ->
    customer_key r = customer_key r'.

(** ** Sample data *)

Definition sample_customer : rfm_row :=
  {| rfm_CustomerID := 17850; Recency := Some 1; Frequency := 10;
     Monetary := 10000 |}.

Fixpoint lookup {A : Type} (table : list (string * A)) (s : string) : option A :=
  match table with
  | [] => None
  | (key, a) :: rest => if String.eqb key s then Some a else lookup rest s
  end.

(** What pandas makes of the texts that occur in the samples; any other text
    of the samples (["not a date"], ["abc"]) does not parse. *)
Definition sample_parsers : Parsers :=
  {| str_to_numeric := lookup [ ("6"%string, 6%Q); ("2.55"%string, 255 # 100) ];
     str_to_datetime :=
       lookup [ ("2010-12-01 08:26:00"%string, 1291191960000000000);
                ("2011-12-09 12:50:00"%string, 1323435000000000000) ];
     num_to_datetime := fun _ => None |}.

(** A line of the retail log as [read_csv] loads it. *)
Definition raw_row (invoice : string) (quantity : Z) (date : string)
  (price customer : Q) : row :=
  {| InvoiceNo := Str invoice;
     Quantity := Int quantity;
     InvoiceDate := Str date;
     UnitPrice := Float price;
     CustomerID := Float customer;
     others := [ Str "85123A"; Str "WHITE HANGING HEART T-LIGHT HOLDER";
                 Str "United Kingdom" ];
     TotalPrice := None |}.

(** Two purchases of the sample customers. *)
Definition sample_log : DataFrame :=
  [ raw_row "536365" 6 "2010-12-01 08:26:00" (255 # 100) 17850;
    raw_row "581587" 6 "2011-12-09 12:50:00" (255 # 100) 12680 ].

(** Two lines that differ only in the fractional part of the customer. *)
Definition fractional_customer_log : DataFrame :=
  [ raw_row "536365" 6 "2010-12-01 08:26:00" (255 # 100) 17850;
    raw_row "536365" 6 "2010-12-01 08:26:00" (255 # 100) (178505 # 10) ].

(** A line whose date is text that is no date. *)
Definition unparsable_date_log : DataFrame :=
  [ raw_row "536365" 6 "not a date" (255 # 100) 17850 ].

(** A line whose quantity is text that is no number. *)
Definition unparsable_quantity_log : DataFrame :=
  [ {| InvoiceNo := Str "536365";
       Quantity := Str "abc";
       InvoiceDate := Str "2010-12-01 08:26:00";
       UnitPrice := Float (255 # 100);
       CustomerID := Float 17850;
       others := [];
       TotalPrice := None |} ].

(** A log that holds one cancellation only. *)
Definition cancelled_log : DataFrame :=
  [ raw_row "C536379" (-1) "2010-12-01 08:26:00" (255 # 100) 17850 ].

(** One invoice identifier under two customers. *)
Definition shared_invoice_log : DataFrame :=
  [ raw_row "536365" 6 "2010-12-01 08:26:00" (255 # 100) 17850;
    raw_row "536365" 6 "2010-12-01 08:26:00" (255 # 100) 12680 ].

(** Two customers, as the aggregation of [sample_log] returns them. *)
Definition two_customers : list rfm_row :=
  [ {| rfm_CustomerID := 12680; Recency := Some 1; Frequency := 1;
       Monetary := 1530 # 100 |};
    {| rfm_CustomerID := 17850; Recency := Some 374; Frequency := 1;
       Monetary := 1530 # 100 |} ].

(** Six customers with well separated metrics; the first is the most recent,
    most frequent and highest spending one. *)
Definition six_customers : list rfm_row :=
  [ sample_customer;
    {| rfm_CustomerID := 12680; Recency := Some 30; Frequency := 8;
       Monetary := 5000 |};
    {| rfm_CustomerID := 13047; Recency := Some 60; Frequency := 6;
       Monetary := 2500 |};
    {| rfm_CustomerID := 13748; Recency := Some 90; Frequency := 4;
       Monetary := 1200 |};
    {| rfm_CustomerID := 15100; Recency := Some 180; Frequency := 2;
       Monetary := 600 |};
    {| rfm_CustomerID := 15291; Recency := Some 365; Frequency := 1;
       Monetary := 100 |} ].

(** * Properties *)

(** ** The classifier *)

Section Classifier.

Variable c : rfm_row.

Lemma segment_customer_scores (r f m : Z) :
  segment_customer (with_scores c r f m)
  = if (r >=? 4) && (f >=? 4) then "Champions"%string
    else if (r >=? 3) && (f >=? 3) then "Loyal Customers"%string
    else if (r >=? 3) && (f <=? 2) then "Potential Loyalist"%string
    else if (r <=? 2) && (f >=? 3) then "At Risk"%string
    else "Others"%string.
Proof. reflexivity. Qed.

Lemma segment_customer_label (row : scored_row) :
  In (segment_customer row) segment_labels.
Proof.
  unfold segment_customer, segment_labels.
  repeat match goal with
         | |- context [if ?b then _ else _] => destruct b
         end; simpl; tauto.
Qed.

End Classifier.

(** C4. The classifier is a total function of the score triple: on every
    triple it returns one of the five labels (which are pairwise different),
    namely the label of the first rule of the ordered decision list that
    matches, and "Others" when none does; so (5,5,1) is a Champion, (2,1,5)
    falls to Others and (1,4,3) is At Risk. *)
Theorem classifier_first_match (c : rfm_row) (r f m : Z) :
  segment_customer (with_scores c r f m) = classify_by_rules r f m
  /\ In (segment_customer (with_scores c r f m)) segment_labels
  /\ NoDup segment_labels
  /\ segment_customer (with_scores c 5 5 1) = "Champions"%string
  /\ segment_customer (with_scores c 2 1 5) = "Others"%string
  /\ segment_customer (with_scores c 1 4 3) = "At Risk"%string.
Proof.
  split; [| split; [| split; [| repeat split]]].
  - rewrite segment_customer_scores.
    unfold classify_by_rules, decision_list, first_match.
    rewrite !Z.geb_leb. reflexivity.
  - apply segment_customer_label.
  - unfold segment_labels.
    repeat constructor; simpl; intuition discriminate.
Qed.

(** C9. Two scored rows that agree on the Recency and the Frequency score
    get the same segment, whatever their Monetary scores. *)
Theorem segment_ignores_monetary (row row' : scored_row) :
  R_score row = R_score row' ->
  F_score row = F_score row' ->
  segment_customer row = segment_customer row'.
Proof.
  intros HR HF. unfold segment_customer. rewrite HR, HF. reflexivity.
Qed.

Lemma segment_ignores_monetary_witness :
  segment_customer (with_scores sample_customer 4 5 1)
  = segment_customer (with_scores sample_customer 4 5 5).
Proof.
  apply segment_ignores_monetary; reflexivity.
Defined.

(** ** The cleaner *)

Section Cleaner.

Variable P : Parsers.

(** Where a cleaned row comes from. *)
Lemma clean_In (df : DataFrame) (r : row) :
  In r (clean P df) <->
  exists r0, In r0 (drop_duplicates df)
    /\ has_required (coerce_numeric P r0) = true
    /\ not_cancelled (convert_types P (coerce_numeric P r0)) = true
    /\ positive (convert_types P (coerce_numeric P r0)) = true
    /\ r = add_total_price (convert_types P (coerce_numeric P r0)).
Proof.
  unfold clean. rewrite in_map_iff. split.
  - intros (r2 & <- & H). apply filter_In in H as [H Hpos].
    apply filter_In in H as [H Hcan].
    apply in_map_iff in H as (r1 & <- & H).
    apply filter_In in H as [H Hreq].
    apply in_map_iff in H as (r0 & <- & H).
    exists r0. auto.
  - intros (r0 & H & Hreq & Hcan & Hpos & ->).
    eexists. split; [reflexivity |].
    apply filter_In. split; [| assumption].
    apply filter_In. split; [| assumption].
    apply in_map. apply filter_In. split; [| assumption].
    apply in_map. assumption.
Qed.

Lemma to_numeric_notna (v : value) :
  notna (to_numeric P v) = true ->
  exists q, numeric (to_numeric P v) = Some q.
Proof.
  destruct v as [| z | q | s | t]; simpl; try discriminate; eauto.
  destruct (str_to_numeric P s); simpl; [eauto | discriminate].
Qed.

Lemma to_datetime_shape (v : value) :
  to_datetime P v = NA \/ exists t, to_datetime P v = Timestamp t.
Proof.
  destruct v as [| z | q | s | t]; simpl; eauto;
    match goal with |- context [match ?o with _ => _ end] => destruct o end;
    eauto.
Qed.

Lemma astype_int_numeric (v : value) (q : Q) :
  numeric v = Some q -> exists z, astype_int v = Int z.
Proof.
  destruct v; simpl; try discriminate; eauto.
Qed.

(** Every row the cleaner returns has positive quantity and price, an
    integer customer, no cancellation mark and its total price; its date is
    a timestamp or NaT. *)
Lemma clean_Cleaned (df : DataFrame) : Forall Cleaned (clean P df).
Proof.
  apply Forall_forall. intros r Hr.
  apply clean_In in Hr as (r0 & _ & Hreq & Hcan & Hpos & ->).
  unfold has_required in Hreq. unfold positive in Hpos.
  unfold not_cancelled in Hcan.
  repeat (apply andb_prop in Hreq as [Hreq ?]).
  apply andb_prop in Hpos as [Hq Hp].
  apply negb_true_iff in Hcan.
  unfold Cleaned; simpl in *.
  repeat split; try assumption.
  - destruct (to_numeric_notna (CustomerID r0)) as [q Hq']; [assumption |].
    eapply astype_int_numeric; eassumption.
  - apply to_datetime_shape.
Qed.

End Cleaner.

(** ** Cleaning a cleaned table again *)

Section Recleaning.

Variable P : Parsers.

Lemma unique_from_In {A : Type} (eqb : A -> A -> bool) (l seen : list A) (x : A) :
  In x (unique_from eqb seen l) -> In x l.
Proof.
  revert seen. induction l as [| y l IH]; intros seen; simpl; [tauto |].
  destruct (existsb (eqb y) seen); simpl; intros H.
  - right. eapply IH; eassumption.
  - destruct H as [H | H]; [left; assumption | right; eapply IH; eassumption].
Qed.

Lemma unique_from_distinct {A : Type} (eqb : A -> A -> bool) (l seen : list A) :
  (forall x, In x l -> existsb (eqb x) seen = false) ->
  ForallOrdPairs (fun a b => eqb b a = false) l ->
  unique_from eqb seen l = l.
Proof.
  revert seen. induction l as [| y l IH]; intros seen Hseen Hpairs; [reflexivity |].
  simpl. rewrite (Hseen y (or_introl eq_refl)).
  inversion Hpairs as [| ? ? Hy Hl]; subst.
  f_equal. apply IH; [| assumption].
  intros x Hx. simpl.
  rewrite (Hseen x (or_intror Hx)).
  rewrite Forall_forall in Hy. rewrite (Hy x Hx). reflexivity.
Qed.

Lemma map_fixed {A : Type} (f : A -> A) (l : list A) :
  (forall x, In x l -> f x = x) -> map f l = l.
Proof.
  intros H. rewrite <- (map_id l) at 2. apply map_ext_in. assumption.
Qed.

Lemma filter_all {A : Type} (p : A -> bool) (l : list A) :
  (forall x, In x l -> p x = true) -> filter p l = l.
Proof.
  induction l as [| y l IH]; intros H; [reflexivity |].
  simpl. rewrite (H y (or_introl eq_refl)).
  f_equal. apply IH. intros x Hx. apply H. right. assumption.
Qed.

Lemma gt_to_numeric (v : value) (c : Q) :
  gt v c = true -> to_numeric P v = v /\ notna v = true.
Proof.
  destruct v; simpl; try discriminate; auto.
Qed.

(** No step of the cleaner changes or drops a cleaned row that has a date. *)
Lemma cleaned_row_fixed (r : row) :
  Cleaned r -> InvoiceDate r <> NA ->
  coerce_numeric P r = r
  /\ has_required r = true
  /\ convert_types P r = r
  /\ not_cancelled r = true
  /\ positive r = true
  /\ add_total_price r = r.
Proof.
  intros (Hq & Hp & (z & Hc) & Hd & Hi & Ht) Hdate.
  destruct (gt_to_numeric _ _ Hq) as [Hq1 Hq2].
  destruct (gt_to_numeric _ _ Hp) as [Hp1 Hp2].
  destruct Hd as [Hd | (t & Hd)]; [contradiction |].
  destruct r as [inv qty date price cust rest total]; simpl in *.
  subst cust date total.
  unfold coerce_numeric, has_required, convert_types, not_cancelled,
    positive, add_total_price; simpl.
  rewrite Hq1, Hp1, Hq2, Hp2, Hi, Hq, Hp. repeat split.
Qed.

Lemma clean_of_cleaned (df : DataFrame) :
  Forall Cleaned df ->
  Forall (fun r => InvoiceDate r <> NA) df ->
  clean P df = drop_duplicates df.
Proof.
  intros Hc Hd. rewrite Forall_forall in Hc, Hd.
  assert (Hfix : forall r, In r (drop_duplicates df) ->
            coerce_numeric P r = r /\ has_required r = true
            /\ convert_types P r = r /\ not_cancelled r = true
            /\ positive r = true /\ add_total_price r = r).
  { intros r Hr. apply unique_from_In in Hr.
    apply cleaned_row_fixed; auto. }
  unfold clean.
  rewrite (map_fixed (coerce_numeric P)) by (intros; apply Hfix; assumption).
  rewrite (filter_all has_required) by (intros; apply Hfix; assumption).
  rewrite (map_fixed (convert_types P)) by (intros; apply Hfix; assumption).
  rewrite (filter_all not_cancelled) by (intros; apply Hfix; assumption).
  rewrite (filter_all positive) by (intros; apply Hfix; assumption).
  apply map_fixed. intros; apply Hfix; assumption.
Qed.

End Recleaning.

(** C8, as the code has it. Cleaning the cleaner's output again, when every
    date of that output has parsed, alters no record and adds none: it only
    removes the exact duplicates among the cleaned records, so it returns the
    same table whenever no two cleaned records are duplicates of each
    other. *)
Theorem recleaning_drops_only_duplicates (P : Parsers) (df : DataFrame) :
  Forall (fun r => InvoiceDate r <> NA) (clean P df) ->
  clean P (clean P df) = drop_duplicates (clean P df)
  /\ (pairwise_distinct (clean P df) -> clean P (clean P df) = clean P df).
Proof.
  intros Hd.
  assert (H : clean P (clean P df) = drop_duplicates (clean P df))
    by (apply clean_of_cleaned; [apply clean_Cleaned | assumption]).
  split; [assumption |].
  intros Hp. rewrite H. unfold drop_duplicates, unique.
  apply unique_from_distinct; [reflexivity | assumption].
Qed.

Lemma recleaning_drops_only_duplicates_witness :
  Forall (fun r => InvoiceDate r <> NA) (clean sample_parsers sample_log)
  /\ pairwise_distinct (clean sample_parsers sample_log)
  /\ clean sample_parsers (clean sample_parsers sample_log)
     = clean sample_parsers sample_log.
Proof.
  assert (Hd : Forall (fun r => InvoiceDate r <> NA)
                 (clean sample_parsers sample_log))
    by (vm_compute; repeat (constructor; [discriminate |]); constructor).
  assert (Hp : pairwise_distinct (clean sample_parsers sample_log))
    by (vm_compute; repeat constructor).
  split; [exact Hd | split; [exact Hp |]].
  exact (proj2 (recleaning_drops_only_duplicates sample_parsers sample_log Hd) Hp).
Defined.

(** C8, as stated, fails. Two lines that differ only in the fractional part
    of the customer identifier are no duplicates on line 12, become equal
    when line 20 truncates the identifier, and the second cleaning drops one
    of them. *)
Lemma recleaning_not_idempotent :
  Forall (fun r => InvoiceDate r <> NA)
    (clean sample_parsers fractional_customer_log)
  /\ length (clean sample_parsers fractional_customer_log) = 2%nat
  /\ length (clean sample_parsers (clean sample_parsers fractional_customer_log)) = 1%nat
  /\ clean sample_parsers (clean sample_parsers fractional_customer_log)
     <> clean sample_parsers fractional_customer_log.
Proof.
  split; [| split; [| split]].
  - vm_compute; repeat (constructor; [discriminate |]); constructor.
  - reflexivity.
  - reflexivity.
  - intros H. apply (f_equal (@length row)) in H. vm_compute in H. discriminate.
Qed.

(** C1, at the failing input. A line whose date is text that does not parse
    passes line 18, where the date is still text and not null; line 21 then
    turns it into NaT, and the line stays in the cleaned table with a null
    date. A line whose quantity does not parse is dropped, as the claim has
    it: the quantity is coerced on line 14, before line 18. *)
Lemma unparsable_date_survives_cleaning :
  map InvoiceDate (clean sample_parsers unparsable_date_log) = [NA]
  /\ map CleanTransaction (clean sample_parsers unparsable_date_log) = [false]
  /\ clean sample_parsers unparsable_quantity_log = [].
Proof. repeat split. Qed.

(** ** The reference date and the aggregation *)

Section Aggregator.

Lemma max_timestamp_shape (col : list value) :
  max_timestamp col = NA \/ exists m, max_timestamp col = Timestamp m.
Proof.
  induction col as [| v col IH]; simpl; [left; reflexivity |].
  destruct v; try assumption;
    destruct IH as [-> | (m & ->)]; right; eexists; reflexivity.
Qed.

Lemma max_timestamp_exists (col : list value) (t : Z) :
  In (Timestamp t) col -> exists m, max_timestamp col = Timestamp m.
Proof.
  induction col as [| v col IH]; simpl; [tauto |].
  intros [-> | H].
  - destruct (max_timestamp_shape col) as [-> | (m & ->)]; eexists; reflexivity.
  - destruct (IH H) as (m & ->). destruct v; eexists; reflexivity.
Qed.

Lemma max_timestamp_upper (col : list value) (m t : Z) :
  max_timestamp col = Timestamp m -> In (Timestamp t) col -> t <= m.
Proof.
  revert m. induction col as [| v col IH]; simpl; [tauto |].
  intros m Hm [-> | H].
  - destruct (max_timestamp_shape col) as [E | (m' & E)]; rewrite E in Hm;
      inversion Hm; lia.
  - destruct (max_timestamp_exists col t H) as (m' & E).
    specialize (IH m' E H). rewrite E in Hm.
    destruct v; inversion Hm; subst; lia.
Qed.

Lemma max_timestamp_In (col : list value) (m : Z) :
  max_timestamp col = Timestamp m -> In (Timestamp m) col.
Proof.
  revert m. induction col as [| v col IH]; simpl; [discriminate |].
  intros m Hm.
  destruct (max_timestamp_shape col) as [E | (m' & E)]; rewrite E in Hm.
  - destruct v; inversion Hm. left; reflexivity.
  - specialize (IH m' E).
    destruct v; inversion Hm; subst; auto.
    destruct (Z.max_spec t m') as [[_ ->] | [_ ->]]; auto.
Qed.

Lemma insert_key_perm (k : Z) (l : list Z) :
  Permutation (insert_key k l) (k :: l).
Proof.
  induction l as [| y l IH]; simpl; [reflexivity |].
  destruct (k <=? y); [reflexivity |].
  rewrite IH. apply perm_swap.
Qed.

Lemma sort_keys_perm (l : list Z) : Permutation (sort_keys l) l.
Proof.
  induction l as [| k l IH]; simpl; [reflexivity |].
  rewrite insert_key_perm. apply perm_skip. assumption.
Qed.

Lemma customer_keys_In (df : DataFrame) (k : Z) :
  In k (customer_keys df) <-> exists r, In r df /\ customer_key r = Some k.
Proof.
  induction df as [| r df IH]; simpl.
  - split; [tauto | intros (r & [] & _)].
  - destruct (customer_key r) as [z |] eqn:E; simpl; rewrite IH; split.
    + intros [-> | (r' & H & H')]; eauto.
    + intros (r' & [-> | H] & H'); [left; congruence | eauto].
    + intros (r' & H & H'); eauto.
    + intros (r' & [-> | H] & H'); [congruence | eauto].
Qed.

Lemma group_keys_In (df : DataFrame) (k : Z) :
  In k (group_keys df) -> exists r, In r df /\ customer_key r = Some k.
Proof.
  unfold group_keys. intros H.
  apply (Permutation_in _ (sort_keys_perm _)) in H.
  apply unique_from_In in H. apply customer_keys_In. assumption.
Qed.

Lemma group_In (df : DataFrame) (k : Z) (r : row) :
  In r (group df k) <-> In r df /\ customer_key r = Some k.
Proof.
  unfold group, in_group. rewrite filter_In.
  destruct (customer_key r) as [z |].
  - rewrite Z.eqb_eq. split; intros [H H']; split; congruence.
  - split; intros [_ H]; discriminate.
Qed.

End Aggregator.


Lemma CleanTransaction_customer (r : row) :
  CleanTransaction r = true -> exists z, customer_key r = Some z.
Proof.
  unfold CleanTransaction, customer_key. intros H.
  repeat (apply andb_prop in H as [H ?]).
  destruct (CustomerID r); try discriminate. eauto.
Qed.



(** C3, as the code has it. When cleaning leaves no record, nothing stops
    the run before the reference date: the reference date is computed and is
    the null date NaT, the aggregation returns an empty customer table, and
    the run aborts only in Step 4, where the quantile edges of an empty rank
    column are not unique. *)
Theorem empty_cleaning_aborts_in_scoring (P : Parsers) (raw : DataFrame) :
  clean P raw = [] ->
  reference_date (clean P raw) = NA
  /\ aggregate (reference_date (clean P raw)) (clean P raw) = []
  /\ run P raw = Aborted Scoring BinEdgesNotUnique.
Proof.
  intros H. unfold run. rewrite H. repeat split.
Qed.

Lemma empty_cleaning_aborts_in_scoring_witness :
  clean sample_parsers cancelled_log = []
  /\ reference_date (clean sample_parsers cancelled_log) = NA
  /\ aggregate (reference_date (clean sample_parsers cancelled_log))
       (clean sample_parsers cancelled_log) = []
  /\ run sample_parsers cancelled_log = Aborted Scoring BinEdgesNotUnique.
Proof.
  assert (H : clean sample_parsers cancelled_log = []) by reflexivity.
  split; [exact H |].
  exact (empty_cleaning_aborts_in_scoring sample_parsers cancelled_log H).
Defined.

(** C3, as stated, fails. A log that holds one cancellation is cleaned to
    nothing, and the run does not abort before the reference date: it
    aborts at no stage earlier than the scoring. *)
Lemma empty_cleaning_passes_reference_date :
  clean sample_parsers cancelled_log = []
  /\ ~ (exists st e,
          run sample_parsers cancelled_log = Aborted st e
          /\ (stage_index st < stage_index ReferenceDate)%nat).
Proof.
  split; [reflexivity |].
  intros (st & e & H & Hlt).
  vm_compute in H. inversion H; subst. vm_compute in Hlt. lia.
Qed.

(** ** The totals of the aggregation *)

Section Unique.

Variable A : Type.
Variable eqb : A -> A -> bool.
Hypothesis eqb_eq : forall x y, eqb x y = true <-> x = y.

Lemma existsb_eqb_In (x : A) (l : list A) :
  existsb (eqb x) l = true <-> In x l.
Proof.
  rewrite existsb_exists. split.
  - intros (y & Hy & E). apply eqb_eq in E. subst. assumption.
  - intros H. exists x. split; [assumption | apply eqb_eq; reflexivity].
Qed.

Lemma unique_from_fresh (l seen : list A) (x : A) :
  In x (unique_from eqb seen l) -> ~ In x seen.
Proof.
  revert seen. induction l as [| y l IH]; intros seen; simpl; [tauto |].
  destruct (existsb (eqb y) seen) eqn:E; simpl.
  - apply IH.
  - intros [<- | H].
    + rewrite <- existsb_eqb_In. rewrite E. discriminate.
    + intros Hx. apply (IH _ H). right. assumption.
Qed.

Lemma unique_from_NoDup (l seen : list A) : NoDup (unique_from eqb seen l).
Proof.
  revert seen. induction l as [| y l IH]; intros seen; simpl; [constructor |].
  destruct (existsb (eqb y) seen); [apply IH |].
  constructor; [| apply IH].
  intros H. apply unique_from_fresh in H. apply H. left. reflexivity.
Qed.

Lemma unique_from_complete (l seen : list A) (x : A) :
  In x l -> In x seen \/ In x (unique_from eqb seen l).
Proof.
  revert seen. induction l as [| y l IH]; intros seen; simpl; [tauto |].
  intros [-> | H].
  - destruct (existsb (eqb x) seen) eqn:E.
    + left. apply existsb_eqb_In. assumption.
    + right. left. reflexivity.
  - destruct (existsb (eqb y) seen).
    + apply IH. assumption.
    + destruct (IH (y :: seen) H) as [[-> | H'] | H']; simpl; auto.
Qed.

End Unique.

Lemma group_keys_NoDup (df : DataFrame) : NoDup (group_keys df).
Proof.
  unfold group_keys.
  eapply Permutation_NoDup; [symmetry; apply sort_keys_perm |].
  apply unique_from_NoDup. apply Z.eqb_eq.
Qed.

Lemma group_keys_complete (df : DataFrame) (r : row) (k : Z) :
  In r df -> customer_key r = Some k -> In k (group_keys df).
Proof.
  intros Hr Hk. unfold group_keys.
  apply (Permutation_in _ (Permutation_sym (sort_keys_perm _))).
  destruct (unique_from_complete Z Z.eqb Z.eqb_eq (customer_keys df) [] k)
    as [[] | H]; [| exact H].
  apply customer_keys_In. eauto.
Qed.

Section TotalsByGroup.

Variable K : list Z.
Hypothesis K_NoDup : NoDup K.

Lemma list_sum_bump (f g : Z -> nat) (c : Z) :
  In c K ->
  (forall k, In k K -> k <> c -> f k = g k) ->
  f c = S (g c) ->
  list_sum (map f K) = S (list_sum (map g K)).
Proof.
  clear - K_NoDup. induction K_NoDup as [| a l Ha ND IH]; intros Hin Hext Hc.
  - destruct Hin.
  - simpl. destruct Hin as [-> | Hin].
    + rewrite Hc. simpl. do 3 f_equal. apply map_ext_in.
      intros k Hk. apply Hext; [right; assumption |].
      intros ->. contradiction.
    + rewrite IH; auto.
      * rewrite (Hext a); [lia | left; reflexivity |].
        intros ->. contradiction.
      * intros k Hk. apply Hext. right. assumption.
Qed.

Lemma group_cons (r : row) (l : DataFrame) (c k : Z) :
  customer_key r = Some c ->
  group (r :: l) k = if c =? k then r :: group l k else group l k.
Proof.
  intros Hc. unfold group at 1. simpl. unfold in_group at 1. rewrite Hc.
  reflexivity.
Qed.

Lemma seen_in_group (s : DataFrame) (r : row) (c : Z) :
  (forall r', In r' s ->
     value_eqb (InvoiceNo r) (InvoiceNo r') = true -> customer_key r' = Some c) ->
  existsb (value_eqb (InvoiceNo r)) (invoices (group s c))
  = existsb (value_eqb (InvoiceNo r)) (invoices s).
Proof.
  intros FD. unfold invoices.
  destruct (existsb _ (filter notna (map InvoiceNo s))) eqn:E.
  - apply existsb_exists in E as (w & Hw & Hv).
    apply filter_In in Hw as [Hw Hna].
    apply in_map_iff in Hw as (r' & <- & Hr').
    apply existsb_exists. exists (InvoiceNo r'). split; [| assumption].
    apply filter_In. split; [| assumption].
    apply in_map. apply group_In. auto.
  - destruct (existsb _ (filter notna (map InvoiceNo (group s c)))) eqn:E';
      [| reflexivity].
    apply existsb_exists in E' as (w & Hw & Hv).
    apply filter_In in Hw as [Hw Hna].
    apply in_map_iff in Hw as (r' & <- & Hr').
    apply group_In in Hr' as [Hr' _].
    rewrite <- E. symmetry. apply existsb_exists.
    exists (InvoiceNo r'). split; [| assumption].
    apply filter_In. split; [apply in_map; assumption | assumption].
Qed.

(** The distinct invoices of a table, counted group by group. [s] holds the
    rows already passed. *)
Lemma unique_invoices_by_group (l s : DataFrame) :
  (forall r, In r l -> exists c, customer_key r = Some c /\ In c K) ->
  invoices_of_one_customer (s ++ l) ->
  list_sum (map (fun k => length (unique_from value_eqb (invoices (group s k))
                                     (invoices (group l k)))) K)
  = length (unique_from value_eqb (invoices s) (invoices l)).
Proof.
  revert s. induction l as [| r l IH]; intros s Hkeys FD.
  - simpl. clear. induction K; simpl; auto.
  - destruct (Hkeys r (or_introl eq_refl)) as (c & Hc & HcK).
    assert (Hkeys' : forall r', In r' l ->
              exists c', customer_key r' = Some c' /\ In c' K)
      by (intros; apply Hkeys; right; assumption).
    assert (FDs : invoices_of_one_customer (s ++ l)).
    { intros r1 r2 H1 H2. apply FD; rewrite in_app_iff in *; simpl; tauto. }
    assert (FDr : invoices_of_one_customer ((r :: s) ++ l)).
    { intros r1 r2 H1 H2. apply FD; simpl in *; rewrite in_app_iff in *;
        simpl; tauto. }
    assert (Hseen : existsb (value_eqb (InvoiceNo r)) (invoices (group s c))
                    = existsb (value_eqb (InvoiceNo r)) (invoices s)).
    { apply seen_in_group. intros r' Hr' E. rewrite <- Hc. symmetry.
      apply FD; [| | assumption]; rewrite in_app_iff; simpl; auto. }
    unfold invoices in *. simpl. destruct (notna (InvoiceNo r)) eqn:Hna.
    + simpl.
      destruct (existsb (value_eqb (InvoiceNo r))
                  (filter notna (map InvoiceNo s))) eqn:Hb.
      * rewrite <- (IH s Hkeys' FDs). f_equal. apply map_ext_in.
        intros k Hk. unfold in_group. rewrite Hc.
        destruct (Z.eqb_spec c k) as [<- |]; [| reflexivity].
        simpl. rewrite Hna. simpl. rewrite Hseen. reflexivity.
      * pose proof (IH (r :: s) Hkeys' FDr) as IH'.
        simpl in IH'. rewrite Hna in IH'. simpl. rewrite <- IH'.
        apply list_sum_bump with (c := c); [assumption | |].
        -- intros k Hk Hne. unfold in_group. rewrite Hc.
           destruct (Z.eqb_spec c k); [congruence | reflexivity].
        -- unfold in_group. rewrite Hc, Z.eqb_refl.
           simpl. rewrite Hna. simpl. rewrite Hseen. reflexivity.
    + rewrite <- (IH s Hkeys' FDs). f_equal. apply map_ext_in.
      intros k Hk. unfold in_group. rewrite Hc.
      destruct (Z.eqb_spec c k) as [<- |]; [| reflexivity].
      simpl. rewrite Hna. reflexivity.
Qed.

End TotalsByGroup.

Lemma Qsum_ext (l : list Z) (f g : Z -> Q) :
  (forall k, In k l -> (f k == g k)%Q) ->
  (fold_right Qplus 0 (map f l) == fold_right Qplus 0 (map g l))%Q.
Proof.
  induction l as [| a l IH]; intros H; simpl; [reflexivity |].
  rewrite (H a (or_introl eq_refl)), IH; [reflexivity |].
  intros k Hk. apply H. right. assumption.
Qed.

Section MonetaryByGroup.

Variable K : list Z.
Hypothesis K_NoDup : NoDup K.

Lemma Qsum_bump (f g : Z -> Q) (c : Z) (q : Q) :
  In c K ->
  (forall k, In k K -> k <> c -> (f k == g k)%Q) ->
  (f c == q + g c)%Q ->
  (fold_right Qplus 0 (map f K) == q + fold_right Qplus 0 (map g K))%Q.
Proof.
  clear - K_NoDup. induction K_NoDup as [| a l Ha ND IH]; intros Hin Hext Hc.
  - destruct Hin.
  - simpl. destruct Hin as [-> | Hin].
    + rewrite Hc, (Qsum_ext l f g); [ring |].
      intros k Hk. apply Hext; [right; assumption |].
      intros ->. contradiction.
    + rewrite IH; auto.
      * rewrite (Hext a); [ring | left; reflexivity |].
        intros ->. contradiction.
      * intros k Hk. apply Hext. right. assumption.
Qed.

(** The sum of a column is the sum of its sums per group. *)
Lemma sum_by_group (l : DataFrame) :
  (forall r, In r l -> exists c, customer_key r = Some c /\ In c K) ->
  (fold_right Qplus 0 (map (fun k => sum (map total_price (group l k))) K)
   == sum (map total_price l))%Q.
Proof.
  induction l as [| r l IH]; intros Hkeys.
  - simpl. clear. induction K; simpl; [reflexivity |].
    rewrite IHl. ring.
  - destruct (Hkeys r (or_introl eq_refl)) as (c & Hc & HcK).
    assert (IH' := IH (fun r' H => Hkeys r' (or_intror H))).
    simpl. destruct (numeric (total_price r)) as [q |] eqn:Hq.
    + rewrite <- IH'. apply Qsum_bump with (c := c); [assumption | |].
      * intros k Hk Hne. unfold in_group. rewrite Hc.
        destruct (Z.eqb_spec c k); [congruence | reflexivity].
      * unfold in_group. rewrite Hc, Z.eqb_refl. simpl. rewrite Hq.
        reflexivity.
    + rewrite <- IH'. apply Qsum_ext. intros k Hk.
      unfold in_group. rewrite Hc.
      destruct (Z.eqb_spec c k); [| reflexivity].
      simpl. rewrite Hq. reflexivity.
Qed.

End MonetaryByGroup.

Lemma sum_of_nat (f : Z -> nat) (K : list Z) :
  fold_right Z.add 0 (map (fun k => Z.of_nat (f k)) K)
  = Z.of_nat (list_sum (map f K)).
Proof.
  induction K as [| a l IH]; simpl; [reflexivity |].
  rewrite IH. lia.
Qed.

(** C7, as the code has it. Over a table of clean transactions in which no
    invoice identifier occurs under two customers, the Frequencies of the
    customers add up to the number of distinct invoice identifiers of the
    table; and, with or without that condition, their Monetary values add up
    to the sum of the total prices of the table (in exact arithmetic). *)
Theorem aggregation_totals (reference : value) (df : DataFrame) :
  forallb CleanTransaction df = true ->
  (invoices_of_one_customer df ->
   total_Frequency (aggregate reference df) = distinct_invoices df)
  /\ (total_Monetary (aggregate reference df) == total_of_prices df)%Q.
Proof.
  intros Hclean. rewrite forallb_forall in Hclean.
  assert (Hkeys : forall r, In r df ->
            exists c, customer_key r = Some c /\ In c (group_keys df)).
  { intros r Hr. destruct (CleanTransaction_customer r (Hclean r Hr)) as (c & Hc).
    exists c. split; [assumption |]. eapply group_keys_complete; eassumption. }
  unfold total_Frequency, total_Monetary, aggregate. rewrite !map_map. simpl.
  split.
  - intros FD. unfold distinct_invoices, nunique.
    rewrite (sum_of_nat
               (fun k => length (unique value_eqb
                                   (filter notna (map InvoiceNo (group df k)))))).
    f_equal.
    apply (unique_invoices_by_group (group_keys df) (group_keys_NoDup df) df []);
      assumption.
  - apply sum_by_group; [apply group_keys_NoDup | assumption].
Qed.

Lemma aggregation_totals_witness :
  forallb CleanTransaction (clean sample_parsers sample_log) = true
  /\ invoices_of_one_customer (clean sample_parsers sample_log)
  /\ total_Frequency
       (aggregate (reference_date (clean sample_parsers sample_log))
          (clean sample_parsers sample_log))
     = distinct_invoices (clean sample_parsers sample_log)
  /\ (total_Monetary
        (aggregate (reference_date (clean sample_parsers sample_log))
           (clean sample_parsers sample_log))
      == total_of_prices (clean sample_parsers sample_log))%Q.
Proof.
  assert (H : forallb CleanTransaction (clean sample_parsers sample_log) = true)
    by reflexivity.
  assert (FD : invoices_of_one_customer (clean sample_parsers sample_log)).
  { intros r r' Hr Hr'. vm_compute in Hr, Hr'.
    destruct Hr as [<- | [<- | []]]; destruct Hr' as [<- | [<- | []]];
      intros E; try reflexivity; vm_compute in E; discriminate. }
  split; [exact H | split; [exact FD |]].
  destruct (aggregation_totals
              (reference_date (clean sample_parsers sample_log))
              (clean sample_parsers sample_log) H) as [HF HM].
  split; [exact (HF FD) | exact HM].
Defined.

(** C7, as stated, fails. When one invoice identifier occurs under two
    customers, each of them counts it: the Frequencies add up to 2 while the
    cleaned table holds 1 distinct invoice identifier. *)
Lemma shared_invoice_counted_twice :
  forallb CleanTransaction (clean sample_parsers shared_invoice_log) = true
  /\ total_Frequency
       (aggregate (reference_date (clean sample_parsers shared_invoice_log))
          (clean sample_parsers shared_invoice_log)) = 2
  /\ distinct_invoices (clean sample_parsers shared_invoice_log) = 1
  /\ total_Frequency
       (aggregate (reference_date (clean sample_parsers shared_invoice_log))
          (clean sample_parsers shared_invoice_log))
     <> distinct_invoices (clean sample_parsers shared_invoice_log).
Proof.
  repeat split. vm_compute. discriminate.
Qed.

(** ** Ranking *)

Section Counting.

Context {A : Type}.

Lemma count_app (f : A -> bool) (l l' : list A) :
  count f (l ++ l') = (count f l + count f l')%nat.
Proof. unfold count. rewrite filter_app, length_app. reflexivity. Qed.

Lemma count_le_length (f : A -> bool) (l : list A) :
  (count f l <= length l)%nat.
Proof. apply filter_length_le. Qed.

Lemma count_ext (f g : A -> bool) (l : list A) :
  (forall x, In x l -> f x = g x) -> count f l = count g l.
Proof. intros H. unfold count. rewrite (filter_ext_in _ _ _ H). reflexivity. Qed.

(** Two predicates that exclude each other and both imply a third. *)
Lemma count_disjoint (f g h : A -> bool) (l : list A) :
  (forall x, f x = true -> g x = false) ->
  (forall x, f x = true -> h x = true) ->
  (forall x, g x = true -> h x = true) ->
  (count f l + count g l <= count h l)%nat.
Proof.
  intros Hfg Hf Hg. unfold count.
  induction l as [| x l IH]; simpl; [lia |].
  destruct (f x) eqn:Ef, (g x) eqn:Eg, (h x) eqn:Eh; simpl;
    try (rewrite (Hfg x Ef) in Eg; discriminate);
    try (rewrite (Hf x Ef) in Eh; discriminate);
    try (rewrite (Hg x Eg) in Eh; discriminate); lia.
Qed.


Lemma nth_error_split_firstn (l : list A) (i : nat) (x : A) :
  nth_error l i = Some x -> l = firstn i l ++ x :: skipn (S i) l.
Proof.
  revert i. induction l as [| y l IH]; intros [| i] H; simpl in *;
    try discriminate.
  - inversion H. reflexivity.
  - f_equal. apply IH. assumption.
Qed.

Lemma firstn_later (l : list A) (i j : nat) (x : A) :
  nth_error l i = Some x -> (i < j)%nat ->
  exists rest, firstn j l = firstn i l ++ x :: rest.
Proof.
  revert i j. induction l as [| y l IH]; intros [| i] [| j] H Hlt;
    simpl in *; try discriminate; try lia.
  - inversion H. eexists. reflexivity.
  - destruct (IH i j H) as (rest & ->); [lia |]. eexists. reflexivity.
Qed.

End Counting.

Lemma Qltb_lt (a b : Q) : Qltb a b = true <-> (a < b)%Q.
Proof.
  unfold Qltb. rewrite negb_true_iff. split.
  - intros H. apply Qnot_le_lt. intros Hle.
    apply Qle_bool_iff in Hle. congruence.
  - intros H. destruct (Qle_bool b a) eqn:E; [| reflexivity].
    apply Qle_bool_iff in E. exfalso. exact (Qlt_not_le _ _ H E).
Qed.

Lemma Qltb_compat (y a b : Q) : (a == b)%Q -> Qltb y a = Qltb y b.
Proof.
  intros H. apply eq_true_iff_eq. rewrite !Qltb_lt, H. reflexivity.
Qed.

Lemma Qeq_bool_compat (y a b : Q) : (a == b)%Q -> Qeq_bool a y = Qeq_bool b y.
Proof.
  intros H. apply eq_true_iff_eq. rewrite !Qeq_bool_iff, H. reflexivity.
Qed.

Lemma Qeq_bool_refl (a : Q) : Qeq_bool a a = true.
Proof. apply Qeq_bool_iff. reflexivity. Qed.

Section Ranking.

Variable xs : list Q.

Lemma stable_ranks_from_nth (all after before : list Q) (i : nat) :
  nth_error (stable_ranks_from all before after) i
  = option_map
      (fun x => 1 + Z.of_nat (count (fun y => Qltb y x) all)
                  + Z.of_nat (count (Qeq_bool x) (before ++ firstn i after)))
      (nth_error after i).
Proof.
  revert before i. induction after as [| x rest IH]; intros before [| i];
    simpl; try reflexivity.
  - rewrite app_nil_r. reflexivity.
  - rewrite IH, <- app_assoc. reflexivity.
Qed.

Lemma stable_ranks_nth (i : nat) (x : Q) :
  nth_error xs i = Some x ->
  nth_error (stable_ranks xs) i
  = Some (1 + Z.of_nat (count (fun y => Qltb y x) xs)
            + Z.of_nat (count (Qeq_bool x) (firstn i xs))).
Proof.
  intros H. unfold stable_ranks. rewrite stable_ranks_from_nth, H.
  reflexivity.
Qed.

Lemma stable_ranks_nth_inv (i : nat) (x : Q) (r : Z) :
  nth_error xs i = Some x ->
  nth_error (stable_ranks xs) i = Some r ->
  r = 1 + Z.of_nat (count (fun y => Qltb y x) xs)
        + Z.of_nat (count (Qeq_bool x) (firstn i xs)).
Proof.
  intros H Hr. rewrite (stable_ranks_nth i x H) in Hr. congruence.
Qed.

Lemma stable_ranks_length : length (stable_ranks xs) = length xs.
Proof.
  unfold stable_ranks. generalize xs at 1, (@nil Q).
  induction xs as [| x rest IH]; intros all before; simpl; [reflexivity |].
  rewrite IH. reflexivity.
Qed.

(** The equal entries before position [i] do not count the entry itself. *)
Lemma equal_before (i : nat) (x : Q) :
  nth_error xs i = Some x ->
  (count (Qeq_bool x) (firstn i xs) + 1 <= count (Qeq_bool x) xs)%nat.
Proof.
  intros H. rewrite (nth_error_split_firstn xs i x H) at 2.
  rewrite count_app. unfold count at 3. simpl.
  rewrite Qeq_bool_refl. simpl. lia.
Qed.

Lemma smaller_and_equal (x x' : Q) :
  (x < x')%Q ->
  (count (fun y => Qltb y x) xs + count (Qeq_bool x) xs
   <= count (fun y => Qltb y x') xs)%nat.
Proof.
  intros Hlt. apply count_disjoint.
  - intros y Hy. apply Qltb_lt in Hy.
    destruct (Qeq_bool x y) eqn:E; [| reflexivity].
    apply Qeq_bool_iff in E. rewrite E in Hy.
    exfalso. exact (Qlt_irrefl _ Hy).
  - intros y Hy. apply Qltb_lt in Hy. apply Qltb_lt.
    exact (Qlt_trans _ _ _ Hy Hlt).
  - intros y Hy. apply Qeq_bool_iff in Hy. apply Qltb_lt.
    rewrite <- Hy. assumption.
Qed.

Lemma smaller_or_equal_bound (x : Q) :
  (count (fun y => Qltb y x) xs + count (Qeq_bool x) xs <= length xs)%nat.
Proof.
  transitivity (count (fun _ : Q => true) xs).
  - apply count_disjoint; auto.
    intros y Hy. apply Qltb_lt in Hy.
    destruct (Qeq_bool x y) eqn:E; [| reflexivity].
    apply Qeq_bool_iff in E. rewrite E in Hy.
    exfalso. exact (Qlt_irrefl _ Hy).
  - apply count_le_length.
Qed.

(** A larger entry has a larger rank. *)
Lemma stable_ranks_increasing (i j : nat) (xi xj : Q) (ri rj : Z) :
  nth_error xs i = Some xi -> nth_error xs j = Some xj ->
  nth_error (stable_ranks xs) i = Some ri ->
  nth_error (stable_ranks xs) j = Some rj ->
  (xi < xj)%Q -> ri < rj.
Proof.
  intros Hi Hj Hri Hrj Hlt.
  rewrite (stable_ranks_nth_inv i xi ri Hi Hri).
  rewrite (stable_ranks_nth_inv j xj rj Hj Hrj).
  pose proof (equal_before i xi Hi).
  pose proof (smaller_and_equal xi xj Hlt).
  lia.
Qed.

(** Of two equal entries the one that comes first has the smaller rank. *)
Lemma stable_ranks_ties (i j : nat) (xi xj : Q) (ri rj : Z) :
  nth_error xs i = Some xi -> nth_error xs j = Some xj ->
  nth_error (stable_ranks xs) i = Some ri ->
  nth_error (stable_ranks xs) j = Some rj ->
  (xi == xj)%Q -> (i < j)%nat -> ri < rj.
Proof.
  intros Hi Hj Hri Hrj Heq Hlt.
  rewrite (stable_ranks_nth_inv i xi ri Hi Hri).
  rewrite (stable_ranks_nth_inv j xj rj Hj Hrj).
  destruct (firstn_later xs i j xi Hi Hlt) as (rest & ->).
  rewrite count_app. unfold count at 5. simpl.
  assert (E : Qeq_bool xj xi = true)
    by (apply Qeq_bool_iff; symmetry; assumption).
  rewrite E. simpl.
  rewrite (count_ext (fun y => Qltb y xi) (fun y => Qltb y xj))
    by (intros; apply Qltb_compat; assumption).
  rewrite (count_ext (Qeq_bool xi) (Qeq_bool xj))
    by (intros; apply Qeq_bool_compat; assumption).
  lia.
Qed.

Lemma stable_ranks_range (i : nat) (r : Z) :
  nth_error (stable_ranks xs) i = Some r ->
  1 <= r <= Z.of_nat (length xs).
Proof.
  intros Hr.
  destruct (nth_error xs i) as [x |] eqn:Hi.
  - rewrite (stable_ranks_nth_inv i x r Hi Hr).
    pose proof (equal_before i x Hi).
    pose proof (smaller_or_equal_bound x). lia.
  - apply nth_error_None in Hi. rewrite <- stable_ranks_length in Hi.
    apply nth_error_None in Hi. congruence.
Qed.

End Ranking.

Lemma stable_ranks_NoDup (xs : list Q) : NoDup (stable_ranks xs).
Proof.
  apply NoDup_nth_error. intros i j Hi E.
  destruct (nth_error (stable_ranks xs) i) as [r |] eqn:Hri;
    [| apply nth_error_None in Hri; lia].
  symmetry in E.
  assert (Hj : (j < length (stable_ranks xs))%nat)
    by (apply nth_error_Some; congruence).
  rewrite stable_ranks_length in Hi, Hj.
  destruct (nth_error xs i) as [xi |] eqn:Hxi;
    [| apply nth_error_None in Hxi; lia].
  destruct (nth_error xs j) as [xj |] eqn:Hxj;
    [| apply nth_error_None in Hxj; lia].
  destruct (Q_dec xi xj) as [[Hlt | Hlt] | Heq].
  - pose proof (stable_ranks_increasing xs i j xi xj r r Hxi Hxj Hri E Hlt). lia.
  - pose proof (stable_ranks_increasing xs j i xj xi r r Hxj Hxi E Hri Hlt). lia.
  - destruct (Nat.lt_trichotomy i j) as [H | [H | H]]; [| assumption |].
    + pose proof (stable_ranks_ties xs i j xi xj r r Hxi Hxj Hri E Heq H). lia.
    + symmetry in Heq.
      pose proof (stable_ranks_ties xs j i xj xi r r Hxj Hxi E Hri Heq H). lia.
Qed.

Lemma positions_In (n : nat) (r : Z) :
  In r (positions n) <-> 1 <= r <= Z.of_nat n.
Proof.
  unfold positions. rewrite in_map_iff. split.
  - intros (k & <- & Hk). apply in_seq in Hk. lia.
  - intros H. exists (Z.to_nat r). split; [lia |]. apply in_seq. lia.
Qed.

Lemma positions_length (n : nat) : length (positions n) = n.
Proof. unfold positions. rewrite length_map, length_seq. reflexivity. Qed.

(** The stable ranks of [n] entries are the positions [1 .. n], each once. *)
Lemma stable_ranks_Permutation (xs : list Q) :
  Permutation (stable_ranks xs) (positions (length xs)).
Proof.
  apply NoDup_Permutation_bis.
  - apply stable_ranks_NoDup.
  - rewrite positions_length, stable_ranks_length. lia.
  - intros r Hr. apply In_nth_error in Hr as (i & Hi).
    apply positions_In. eapply stable_ranks_range. eassumption.
Qed.

Lemma dropna_Some (xs : list Q) : dropna (map Some xs) = xs.
Proof.
  induction xs as [| x l IH]; simpl; [| rewrite IH]; reflexivity.
Qed.

(** On a column without nulls pandas' ranks are the stable ranks. *)
Lemma rank_first_stable (xs : list Q) :
  rank_first (map Some xs) = map (fun r => Some (inject_Z r)) (stable_ranks xs).
Proof.
  unfold rank_first, stable_ranks. rewrite dropna_Some.
  generalize xs at 1 3, (@nil Q).
  induction xs as [| x rest IH]; intros all before; simpl; [reflexivity |].
  rewrite IH. reflexivity.
Qed.

(** ** Sorting the ranks *)

Lemma insert_sorted_inject (k : Z) (l : list Z) :
  insert_sorted (inject_Z k) (map inject_Z l) = map inject_Z (insert_key k l).
Proof.
  induction l as [| y l IH]; simpl; [reflexivity |].
  assert (E : Qle_bool (inject_Z k) (inject_Z y) = (k <=? y)).
  { apply eq_true_iff_eq. rewrite Qle_bool_iff, Z.leb_le, <- Zle_Qle.
    reflexivity. }
  rewrite E. destruct (k <=? y); simpl; [reflexivity |].
  rewrite IH. reflexivity.
Qed.

Lemma sort_inject (l : list Z) :
  sort (map inject_Z l) = map inject_Z (sort_keys l).
Proof.
  induction l as [| k l IH]; simpl; [reflexivity |].
  rewrite IH. apply insert_sorted_inject.
Qed.

Lemma insert_key_sorted (k : Z) (l : list Z) :
  StronglySorted Z.le l -> StronglySorted Z.le (insert_key k l).
Proof.
  induction l as [| y l IH]; intros Hs; simpl.
  - repeat constructor.
  - inversion Hs as [| ? ? Hl Hy]; subst.
    destruct (Z.leb_spec k y).
    + constructor; [assumption |].
      constructor; [assumption |].
      eapply Forall_impl; [| exact Hy]. intros z Hz. simpl in Hz. lia.
    + constructor; [apply IH; assumption |].
      apply Forall_forall. intros z Hz.
      apply (Permutation_in _ (insert_key_perm k l)) in Hz.
      destruct Hz as [<- | Hz]; [lia |].
      rewrite Forall_forall in Hy. apply Hy. assumption.
Qed.

Lemma sort_keys_sorted (l : list Z) : StronglySorted Z.le (sort_keys l).
Proof.
  induction l as [| k l IH]; simpl; [constructor |].
  apply insert_key_sorted. assumption.
Qed.

(** Two ascending lists with the same elements are the same list. *)
Lemma sorted_Permutation_eq (l l' : list Z) :
  StronglySorted Z.le l -> StronglySorted Z.le l' ->
  Permutation l l' -> l = l'.
Proof.
  revert l'. induction l as [| a l IH]; intros l' Hs Hs' Hp.
  - apply Permutation_nil in Hp. congruence.
  - destruct l' as [| b l'];
      [apply Permutation_sym, Permutation_nil in Hp; discriminate |].
    inversion Hs as [| ? ? Hl Ha]; inversion Hs' as [| ? ? Hl' Hb]; subst.
    rewrite Forall_forall in Ha, Hb.
    assert (a = b).
    { assert (Hb' : In b (a :: l))
        by (apply (Permutation_in _ (Permutation_sym Hp)); left; reflexivity).
      assert (Ha' : In a (b :: l'))
        by (apply (Permutation_in _ Hp); left; reflexivity).
      destruct Hb' as [-> | Hb']; [reflexivity |].
      destruct Ha' as [-> | Ha']; [reflexivity |].
      specialize (Ha b Hb'). specialize (Hb a Ha'). lia. }
    subst b. f_equal. apply IH; try assumption.
    eapply Permutation_cons_inv. eassumption.
Qed.

Lemma positions_sorted (n : nat) : StronglySorted Z.le (positions n).
Proof.
  unfold positions. generalize 1%nat.
  induction n as [| n IH]; intros start; simpl; constructor.
  - apply IH.
  - apply Forall_forall. intros z Hz.
    apply in_map_iff in Hz as (k & <- & Hk). apply in_seq in Hk. lia.
Qed.

(** The ranks of a column of [n] entries, sorted, are [1 .. n]. *)
Lemma sort_stable_ranks (xs : list Q) :
  sort (dropna (map (fun r => Some (inject_Z r)) (stable_ranks xs)))
  = map inject_Z (positions (length xs)).
Proof.
  rewrite <- (map_map inject_Z Some), dropna_Some, sort_inject. f_equal.
  apply sorted_Permutation_eq.
  - apply sort_keys_sorted.
  - apply positions_sorted.
  - rewrite sort_keys_perm. apply stable_ranks_Permutation.
Qed.

(** ** The quintile edges of the ranks *)

(** Turn a comparison of rationals into one of integers. *)
Ltac to_integers :=
  unfold Qminus in *;
  unfold Qeq, Qlt, Qle, Qplus, Qopp, Qmult, inject_Z in *;
  cbn [Qnum Qden Pos.mul Pos.add Pos.succ] in *.

Lemma positions_nth (n i : nat) (d : Q) :
  (i < n)%nat ->
  nth i (map inject_Z (positions n)) d = inject_Z (Z.of_nat i + 1).
Proof.
  intros H. unfold positions.
  rewrite (nth_indep _ d (inject_Z (Z.of_nat 0)))
    by (rewrite !length_map, length_seq; assumption).
  rewrite !map_nth, seq_nth by assumption.
  f_equal. lia.
Qed.

(** Between the positions [1 .. n] the interpolated quantile at [k/5] is
    [1 + k (n - 1) / 5]. *)
Lemma quantile_positions (n k : nat) :
  (1 <= n)%nat -> (k <= 5)%nat ->
  exists e, quantile (map inject_Z (positions n)) 5 k = Some e
            /\ (e == edge n k)%Q.
Proof.
  intros Hn Hk. unfold quantile.
  destruct (map inject_Z (positions n)) as [| x0 rest] eqn:E.
  { apply (f_equal (@length Q)) in E.
    rewrite length_map, positions_length in E. simpl in E. lia. }
  rewrite <- E. rewrite length_map, positions_length.
  eexists. split; [reflexivity |].
  set (a := Z.of_nat k * (Z.of_nat n - 1)).
  change (Qfloor (a # Pos.of_nat 5)) with (a / 5).
  change (Pos.of_nat 5) with 5%positive.
  assert (Ha : 0 <= a <= 5 * (Z.of_nat n - 1)) by (unfold a; nia).
  assert (Hlo : 0 <= a / 5 <= Z.of_nat n - 1).
  { split; [apply Z.div_pos; lia |].
    apply Z.div_le_upper_bound; lia. }
  pose proof (Z.div_mod a 5 ltac:(lia)) as Hdiv.
  pose proof (Z.mod_pos_bound a 5 ltac:(lia)) as Hmod.
  rewrite !positions_nth by lia. rewrite !Z2Nat.id by lia.
  unfold edge. fold a.
  destruct (Z.le_gt_cases (a / 5 + 1) (Z.of_nat n - 1)) as [Hle | Hgt].
  - rewrite Z.min_l by assumption. to_integers. lia.
  - rewrite Z.min_r by lia.
    assert (H5 : a = 5 * (Z.of_nat n - 1)) by lia.
    assert (Hq : a / 5 = Z.of_nat n - 1) by lia.
    rewrite Hq, H5. to_integers. lia.
Qed.

Lemma edge_below (n k : nat) (z : Z) (e : Q) :
  (e == edge n k)%Q ->
  Qltb e (inject_Z z) = (Z.of_nat k * (Z.of_nat n - 1) <? 5 * (z - 1)).
Proof.
  intros H. apply eq_true_iff_eq. rewrite Qltb_lt, Z.ltb_lt, H.
  unfold edge. to_integers. lia.
Qed.

Lemma edge_lowest (n : nat) (z : Z) (e : Q) :
  (e == edge n 0)%Q -> Qeq_bool (inject_Z z) e = (z =? 1).
Proof.
  intros H. apply eq_true_iff_eq. rewrite Qeq_bool_iff, Z.eqb_eq, H.
  unfold edge. to_integers. lia.
Qed.

Lemma edges_apart (n j k : nat) (ej ek : Q) :
  (2 <= n)%nat -> j <> k ->
  (ej == edge n j)%Q -> (ek == edge n k)%Q -> Qeq_bool ej ek = false.
Proof.
  intros Hn Hjk Hj Hk.
  destruct (Qeq_bool ej ek) eqn:E; [| reflexivity].
  apply Qeq_bool_iff in E. rewrite Hj, Hk in E.
  unfold edge in E. to_integers. nia.
Qed.

(** ** Binning the ranks *)

Lemma count_cons {A : Type} (f : A -> bool) (x : A) (l : list A) :
  count f (x :: l) = (Nat.b2n (f x) + count f l)%nat.
Proof. unfold count. simpl. destruct (f x); reflexivity. Qed.

Ltac split_comparisons :=
  repeat match goal with
         | |- context [?a <? ?b] => destruct (Z.ltb_spec a b)
         | |- context [?a <=? ?b] => destruct (Z.leb_spec a b)
         | |- context [?a =? ?b] => destruct (Z.eqb_spec a b)
         end.


Lemma quintile_range (n r : Z) : 1 <= quintile n r <= 5.
Proof. unfold quintile. split_comparisons; lia. Qed.

Lemma quintile_monotone (n r r' : Z) :
  r <= r' -> quintile n r <= quintile n r'.
Proof. intros H. unfold quintile. split_comparisons; lia. Qed.

(** The bin that [searchsorted] finds for a position is its quintile. *)
Lemma bucket_index (n r : Z) :
  2 <= n -> 1 <= r <= n ->
  (if r =? 1 then 1%nat
   else (Nat.b2n (0 * (n - 1) <? 5 * (r - 1))%Z
         + (Nat.b2n (1 * (n - 1) <? 5 * (r - 1))%Z
            + (Nat.b2n (2 * (n - 1) <? 5 * (r - 1))%Z
               + (Nat.b2n (3 * (n - 1) <? 5 * (r - 1))%Z
                  + (Nat.b2n (4 * (n - 1) <? 5 * (r - 1))%Z
                     + (Nat.b2n (5 * (n - 1) <? 5 * (r - 1))%Z + 0))))))%nat)
  = Z.to_nat (quintile n r).
Proof.
  intros Hn Hr. unfold quintile.
  split_comparisons; simpl; try lia; reflexivity.
Qed.

Section Binning.

Variable n : nat.
Variables e0 e1 e2 e3 e4 e5 : Q.
Hypothesis E0 : (e0 == edge n 0)%Q.
Hypothesis E1 : (e1 == edge n 1)%Q.
Hypothesis E2 : (e2 == edge n 2)%Q.
Hypothesis E3 : (e3 == edge n 3)%Q.
Hypothesis E4 : (e4 == edge n 4)%Q.
Hypothesis E5 : (e5 == edge n 5)%Q.

Lemma bins_unique :
  (2 <= n)%nat ->
  unique edge_eqb [Some e0; Some e1; Some e2; Some e3; Some e4; Some e5]
  = [Some e0; Some e1; Some e2; Some e3; Some e4; Some e5].
Proof.
  intros Hn. apply unique_from_distinct; [reflexivity |].
  repeat constructor; cbn [edge_eqb];
    match goal with
    | Hj : (?a == edge _ ?j)%Q, Hk : (?b == edge _ ?k)%Q
      |- Qeq_bool ?a ?b = false =>
        apply (edges_apart n j k a b); [lia | lia | exact Hj | exact Hk]
    end.
Qed.

Lemma cut_position (labels : list Z) (r : Z) :
  (2 <= n)%nat -> 1 <= r <= Z.of_nat n ->
  cut [Some e0; Some e1; Some e2; Some e3; Some e4; Some e5] labels
    (Some (inject_Z r))
  = nth_error labels (Z.to_nat (quintile (Z.of_nat n) r) - 1).
Proof.
  intros Hn Hr. unfold cut, searchsorted_left.
  cbn [hd edge_eqb]. rewrite (edge_lowest n r e0 E0).
  rewrite !count_cons. cbn beta iota.
  rewrite (edge_below n 0 r e0 E0), (edge_below n 1 r e1 E1),
    (edge_below n 2 r e2 E2), (edge_below n 3 r e3 E3),
    (edge_below n 4 r e4 E4), (edge_below n 5 r e5 E5).
  change (count _ []) with 0%nat.
  change (Z.of_nat 0) with 0. change (Z.of_nat 1) with 1.
  change (Z.of_nat 2) with 2. change (Z.of_nat 3) with 3.
  change (Z.of_nat 4) with 4. change (Z.of_nat 5) with 5.
  rewrite (bucket_index (Z.of_nat n) r) by lia.
  pose proof (quintile_range (Z.of_nat n) r) as Hq.
  destruct (Nat.eqb_spec (Z.to_nat (quintile (Z.of_nat n) r)) 0); [lia |].
  destruct (Nat.eqb_spec (Z.to_nat (quintile (Z.of_nat n) r))
              (length [Some e0; Some e1; Some e2; Some e3; Some e4; Some e5]));
    [simpl in *; lia |].
  reflexivity.
Qed.

End Binning.

Lemma stable_ranks_In_range (xs : list Q) (r : Z) :
  In r (stable_ranks xs) -> 1 <= r <= Z.of_nat (length xs).
Proof.
  intros H. apply In_nth_error in H as (i & Hi).
  eapply stable_ranks_range. eassumption.
Qed.

(** Lines 51 to 53 on a column without nulls and with two entries or more:
    the score of an entry is the label of the quintile of its stable rank. *)
Lemma qcut_rank_first (xs : list Q) (labels : list Z) :
  (2 <= length xs)%nat ->
  qcut (rank_first (map Some xs)) 5 labels
  = Ok (map (fun r => nth_error labels
                        (Z.to_nat (quintile (Z.of_nat (length xs)) r) - 1))
          (stable_ranks xs)).
Proof.
  intros Hn. rewrite rank_first_stable. unfold qcut.
  rewrite sort_stable_ranks.
  destruct (quantile_positions (length xs) 0) as (e0 & Q0 & E0); [lia | lia |].
  destruct (quantile_positions (length xs) 1) as (e1 & Q1 & E1); [lia | lia |].
  destruct (quantile_positions (length xs) 2) as (e2 & Q2 & E2); [lia | lia |].
  destruct (quantile_positions (length xs) 3) as (e3 & Q3 & E3); [lia | lia |].
  destruct (quantile_positions (length xs) 4) as (e4 & Q4 & E4); [lia | lia |].
  destruct (quantile_positions (length xs) 5) as (e5 & Q5 & E5); [lia | lia |].
  assert (Hb : map (quantile (map inject_Z (positions (length xs))) 5)
                 (seq 0 (5 + 1))
               = [Some e0; Some e1; Some e2; Some e3; Some e4; Some e5]).
  { change (seq 0 (5 + 1)) with [0; 1; 2; 3; 4; 5]%nat.
    cbn [map]. rewrite Q0, Q1, Q2, Q3, Q4, Q5. reflexivity. }
  rewrite Hb.
  rewrite (bins_unique (length xs) e0 e1 e2 e3 e4 e5) by assumption.
  cbn [length Nat.ltb Nat.leb andb].
  f_equal. rewrite map_map. apply map_ext_in. intros r Hr.
  apply (cut_position (length xs) e0 e1 e2 e3 e4 e5); try assumption.
  apply stable_ranks_In_range. assumption.
Qed.

Lemma Qltb_irrefl (x : Q) : Qltb x x = false.
Proof.
  destruct (Qltb x x) eqn:E; [| reflexivity].
  apply Qltb_lt in E. exfalso. exact (Qlt_irrefl _ E).
Qed.

(** With fewer than two entries the six edges coincide and [qcut] raises. *)
Lemma qcut_rank_first_too_few (xs : list Q) (labels : list Z) :
  (length xs < 2)%nat ->
  qcut (rank_first (map Some xs)) 5 labels = Raise BinEdgesNotUnique.
Proof.
  intros Hn. destruct xs as [| x [| y rest]]; [reflexivity | | simpl in Hn; lia].
  rewrite rank_first_stable. unfold stable_ranks, stable_ranks_from, count.
  cbn [filter]. rewrite Qltb_irrefl. reflexivity.
Qed.

(** ** How many positions fall in each quintile *)











(** ** The scores of the three metrics *)

Lemma label_direct (q : Z) :
  1 <= q <= 5 -> nth_error [1; 2; 3; 4; 5] (Z.to_nat q - 1) = Some q.
Proof.
  intros H.
  assert (q = 1 \/ q = 2 \/ q = 3 \/ q = 4 \/ q = 5)
    as [-> | [-> | [-> | [-> | ->]]]] by lia; reflexivity.
Qed.

Lemma label_inverted (q : Z) :
  1 <= q <= 5 -> nth_error [5; 4; 3; 2; 1] (Z.to_nat q - 1) = Some (6 - q).
Proof.
  intros H.
  assert (q = 1 \/ q = 2 \/ q = 3 \/ q = 4 \/ q = 5)
    as [-> | [-> | [-> | [-> | ->]]]] by lia; reflexivity.
Qed.

Lemma qcut_direct (xs : list Q) :
  (2 <= length xs)%nat ->
  qcut (rank_first (map Some xs)) 5 [1; 2; 3; 4; 5]
  = Ok (map Some (direct_scores xs)).
Proof.
  intros Hn. rewrite qcut_rank_first by assumption.
  unfold direct_scores. rewrite map_map. f_equal.
  apply map_ext. intros r. apply label_direct. apply quintile_range.
Qed.

Lemma qcut_inverted (xs : list Q) :
  (2 <= length xs)%nat ->
  qcut (rank_first (map Some xs)) 5 [5; 4; 3; 2; 1]
  = Ok (map Some (inverted_scores xs)).
Proof.
  intros Hn. rewrite qcut_rank_first by assumption.
  unfold inverted_scores. rewrite map_map. f_equal.
  apply map_ext. intros r. apply label_inverted. apply quintile_range.
Qed.

Lemma Recency_column_notna (rfm : list rfm_row) :
  Forall (fun c => Recency c <> None) rfm ->
  Recency_column rfm = map Some (Recency_values rfm)
  /\ length (Recency_values rfm) = length rfm.
Proof.
  unfold Recency_values, Recency_column.
  induction 1 as [| c rfm Hc _ [IH IHlen]]; simpl; [split; reflexivity |].
  destruct (Recency c) as [d |]; [| contradiction]. simpl.
  split; [f_equal; assumption | f_equal; assumption].
Qed.

Lemma Frequency_column_values (rfm : list rfm_row) :
  Frequency_column rfm = map Some (Frequency_values rfm)
  /\ length (Frequency_values rfm) = length rfm.
Proof.
  unfold Frequency_column, Frequency_values.
  rewrite map_map, length_map. split; reflexivity.
Qed.

Lemma Monetary_column_values (rfm : list rfm_row) :
  Monetary_column rfm = map Some (Monetary_values rfm)
  /\ length (Monetary_values rfm) = length rfm.
Proof.
  unfold Monetary_column, Monetary_values.
  rewrite map_map, length_map. split; reflexivity.
Qed.

Section Scores.

Variable rfm : list rfm_row.
Hypothesis enough : (2 <= length rfm)%nat.

Lemma F_scores_direct :
  F_scores rfm = Ok (map Some (direct_scores (Frequency_values rfm))).
Proof.
  destruct (Frequency_column_values rfm) as [E Hlen].
  unfold F_scores. rewrite E. apply qcut_direct. lia.
Qed.

Lemma M_scores_direct :
  M_scores rfm = Ok (map Some (direct_scores (Monetary_values rfm))).
Proof.
  destruct (Monetary_column_values rfm) as [E Hlen].
  unfold M_scores. rewrite E. apply qcut_direct. lia.
Qed.

Lemma R_scores_inverted :
  Forall (fun c => Recency c <> None) rfm ->
  R_scores rfm = Ok (map Some (inverted_scores (Recency_values rfm))).
Proof.
  intros H. destruct (Recency_column_notna rfm H) as [E Hlen].
  unfold R_scores. rewrite E. apply qcut_inverted. lia.
Qed.

End Scores.

Lemma score_rows_Some (rfm : list rfm_row) (rs fs ms : list Z) :
  score_rows rfm (map Some rs) (map Some fs) (map Some ms)
  = Ok (scored_table rfm rs fs ms).
Proof.
  revert rs fs ms.
  induction rfm as [| c rfm IH]; intros [| r rs] [| f fs] [| m ms];
    try reflexivity.
  simpl. rewrite IH. reflexivity.
Qed.

Lemma scored_table_length (rfm : list rfm_row) (rs fs ms : list Z) :
  length rs = length rfm -> length fs = length rfm -> length ms = length rfm ->
  length (scored_table rfm rs fs ms) = length rfm.
Proof.
  revert rs fs ms.
  induction rfm as [| c rfm IH]; intros [| r rs] [| f fs] [| m ms];
    simpl; try discriminate; try reflexivity.
  intros Hr Hf Hm. f_equal. apply IH; congruence.
Qed.

Lemma scored_table_nth (rfm : list rfm_row) (rs fs ms : list Z) (i : nat)
  (row : scored_row) :
  nth_error (scored_table rfm rs fs ms) i = Some row ->
  nth_error rfm i = Some (customer row)
  /\ nth_error rs i = Some (R_score row)
  /\ nth_error fs i = Some (F_score row)
  /\ nth_error ms i = Some (M_score row).
Proof.
  revert rs fs ms i.
  induction rfm as [| c rfm IH]; intros [| r rs] [| f fs] [| m ms] [| i];
    simpl; try discriminate.
  - intros H. injection H as <-. repeat split.
  - apply IH.
Qed.

Lemma direct_scores_length (xs : list Q) :
  length (direct_scores xs) = length xs.
Proof. unfold direct_scores. rewrite length_map. apply stable_ranks_length. Qed.

Lemma inverted_scores_length (xs : list Q) :
  length (inverted_scores xs) = length xs.
Proof. unfold inverted_scores. rewrite length_map. apply stable_ranks_length. Qed.

(** Step 4 on two customers or more, all with a Recency: every customer
    gets the inverted quintile of its Recency rank and the direct quintiles
    of its Frequency and Monetary ranks. *)
Lemma assign_scores_completes (rfm : list rfm_row) :
  (2 <= length rfm)%nat ->
  Forall (fun c => Recency c <> None) rfm ->
  assign_scores rfm
  = Ok (scored_table rfm
          (inverted_scores (Recency_values rfm))
          (direct_scores (Frequency_values rfm))
          (direct_scores (Monetary_values rfm))).
Proof.
  intros Hn Hna. unfold assign_scores.
  rewrite R_scores_inverted, F_scores_direct, M_scores_direct by assumption.
  simpl. apply score_rows_Some.
Qed.

(** Step 4 on fewer than two customers raises on line 51. *)
Lemma assign_scores_too_few (rfm : list rfm_row) :
  (length rfm < 2)%nat -> assign_scores rfm = Raise BinEdgesNotUnique.
Proof.
  intros Hn. unfold assign_scores.
  assert (E : R_scores rfm = Raise BinEdgesNotUnique);
    [| rewrite E; reflexivity].
  destruct rfm as [| c [| c' rest]]; [reflexivity | | simpl in Hn; lia].
  unfold R_scores, Recency_column. simpl.
  destruct (Recency c) as [d |]; [| reflexivity].
  apply (qcut_rank_first_too_few [inject_Z d]). simpl. lia.
Qed.

(** ** Balance and order of the scores *)

Lemma nth_error_map_inv {A B : Type} (f : A -> B) (l : list A) (i : nat) (y : B) :
  nth_error (map f l) i = Some y -> exists x, nth_error l i = Some x /\ y = f x.
Proof.
  revert i. induction l as [| a l IH]; intros [| i]; simpl; try discriminate.
  - intros H. injection H as <-. eauto.
  - apply IH.
Qed.

Section ScoresOfColumn.

Variable xs : list Q.



(** The order of two stable ranks: by value, then by position. *)
Lemma stable_ranks_order (i j : nat) (xi xj : Q) (ri rj : Z) :
  nth_error xs i = Some xi -> nth_error xs j = Some xj ->
  nth_error (stable_ranks xs) i = Some ri ->
  nth_error (stable_ranks xs) j = Some rj ->
  (xi < xj)%Q \/ ((xi == xj)%Q /\ (i < j)%nat) ->
  ri < rj.
Proof.
  intros Hi Hj Hri Hrj [Hlt | [Heq Hlt]].
  - exact (stable_ranks_increasing xs i j xi xj ri rj Hi Hj Hri Hrj Hlt).
  - exact (stable_ranks_ties xs i j xi xj ri rj Hi Hj Hri Hrj Heq Hlt).
Qed.

Lemma direct_scores_order (i j : nat) (xi xj : Q) (si sj : Z) :
  nth_error xs i = Some xi -> nth_error xs j = Some xj ->
  nth_error (direct_scores xs) i = Some si ->
  nth_error (direct_scores xs) j = Some sj ->
  (xi < xj)%Q \/ ((xi == xj)%Q /\ (i < j)%nat) ->
  si <= sj.
Proof.
  intros Hi Hj Hsi Hsj Hord.
  apply nth_error_map_inv in Hsi as (ri & Hri & ->).
  apply nth_error_map_inv in Hsj as (rj & Hrj & ->).
  apply quintile_monotone.
  pose proof (stable_ranks_order i j xi xj ri rj Hi Hj Hri Hrj Hord). lia.
Qed.

Lemma inverted_scores_order (i j : nat) (xi xj : Q) (si sj : Z) :
  nth_error xs i = Some xi -> nth_error xs j = Some xj ->
  nth_error (inverted_scores xs) i = Some si ->
  nth_error (inverted_scores xs) j = Some sj ->
  (xi < xj)%Q \/ ((xi == xj)%Q /\ (i < j)%nat) ->
  sj <= si.
Proof.
  intros Hi Hj Hsi Hsj Hord.
  apply nth_error_map_inv in Hsi as (ri & Hri & ->).
  apply nth_error_map_inv in Hsj as (rj & Hrj & ->).
  pose proof (stable_ranks_order i j xi xj ri rj Hi Hj Hri Hrj Hord).
  pose proof (quintile_monotone (Z.of_nat (length xs)) ri rj ltac:(lia)).
  lia.
Qed.


End ScoresOfColumn.

(** ** What a completed scoring tells about its input *)

Lemma rank_first_from_None (all before : list Q) (col : list (option Q)) :
  Forall2 (fun x r => x = None -> r = None) col (rank_first_from all before col).
Proof.
  revert before. induction col as [| [x |] col IH]; intros before; simpl;
    constructor; auto. discriminate.
Qed.

Lemma cut_None (bins : list (option Q)) (labels : list Z) (col : list (option Q)) :
  Forall2 (fun x s => x = None -> s = None) col (map (cut bins labels) col).
Proof.
  induction col as [| x col IH]; simpl; constructor; [| assumption].
  intros ->. reflexivity.
Qed.

Lemma qcut_None (col : list (option Q)) (labels : list Z) (scores : list (option Z)) :
  qcut col 5 labels = Ok scores ->
  Forall2 (fun x s => x = None -> s = None) col scores.
Proof.
  unfold qcut. destruct (_ && _); [discriminate |].
  intros H. injection H as <-. apply cut_None.
Qed.

Lemma Forall2_length_eq {A B : Type} (R : A -> B -> Prop) (l : list A) (l' : list B) :
  Forall2 R l l' -> length l = length l'.
Proof. induction 1; simpl; congruence. Qed.

Lemma R_scores_None (rfm : list rfm_row) (rs : list (option Z)) :
  R_scores rfm = Ok rs ->
  Forall2 (fun c r => Recency c = None -> r = None) rfm rs.
Proof.
  unfold R_scores, rank_first. intros H. apply qcut_None in H.
  pose proof (rank_first_from_None (dropna (Recency_column rfm)) []
                (Recency_column rfm)) as H'.
  revert H H'. generalize (rank_first_from (dropna (Recency_column rfm)) []
                             (Recency_column rfm)).
  unfold Recency_column. intros ranks. revert rs ranks.
  induction rfm as [| c rfm IH]; intros rs ranks H H'; simpl in *.
  - inversion H'; subst. inversion H; subst. constructor.
  - inversion H' as [| ? r0 ? ranks' Hc Hrest]; subst.
    inversion H as [| ? s ? rs' Hs Hrest']; subst.
    constructor; [| eapply IH; eassumption].
    intros E. apply Hs, Hc. rewrite E. reflexivity.
Qed.

Lemma qcut_length (col : list (option Q)) (labels : list Z) (scores : list (option Z)) :
  qcut col 5 labels = Ok scores -> length scores = length col.
Proof.
  intros H. symmetry. eapply Forall2_length_eq. eapply qcut_None. eassumption.
Qed.

Lemma rank_first_length (col : list (option Q)) :
  length (rank_first col) = length col.
Proof.
  symmetry. eapply Forall2_length_eq. apply rank_first_from_None.
Qed.

Lemma score_rows_notna (rfm : list rfm_row) (rs fs ms : list (option Z))
  (table : list scored_row) :
  score_rows rfm rs fs ms = Ok table ->
  Forall2 (fun c r => Recency c = None -> r = None) rfm rs ->
  length fs = length rfm -> length ms = length rfm ->
  Forall (fun c => Recency c <> None) rfm.
Proof.
  intros H HR. revert fs ms table H.
  induction HR as [| c r rfm rs Hc HR IH]; intros fs ms table H Hf Hm;
    [constructor |].
  destruct fs as [| f fs]; [discriminate |].
  destruct ms as [| m ms]; [discriminate |].
  simpl in H.
  destruct (score_row c r f m) as [row | e] eqn:Erow; [| discriminate].
  destruct (score_rows rfm rs fs ms) as [rows | e] eqn:Erows; [| discriminate].
  constructor.
  - intros E. rewrite (Hc E) in Erow. discriminate.
  - eapply IH; [eassumption | |]; simpl in *; congruence.
Qed.

(** A scoring that completes had two customers or more, each with a
    Recency. *)
Lemma assign_scores_Ok (rfm : list rfm_row) (table : list scored_row) :
  assign_scores rfm = Ok table ->
  (2 <= length rfm)%nat /\ Forall (fun c => Recency c <> None) rfm.
Proof.
  intros H. split.
  - destruct (Nat.lt_ge_cases (length rfm) 2) as [Hlt | Hge]; [| assumption].
    rewrite (assign_scores_too_few rfm Hlt) in H. discriminate.
  - unfold assign_scores in H.
    destruct (R_scores rfm) as [rs | e] eqn:ER; [| discriminate].
    destruct (F_scores rfm) as [fs | e] eqn:EF; [| discriminate].
    destruct (M_scores rfm) as [ms | e] eqn:EM; [| discriminate].
    simpl in H.
    apply (score_rows_notna rfm rs fs ms table H (R_scores_None rfm rs ER)).
    + apply qcut_length in EF. rewrite rank_first_length in EF.
      unfold Frequency_column in EF. rewrite length_map in EF. assumption.
    + apply qcut_length in EM. rewrite rank_first_length in EM.
      unfold Monetary_column in EM. rewrite length_map in EM. assumption.
Qed.

(** ** The scorer *)

(** C2, as the code has it. On customers that all have a Recency the scoring
    aborts only when there are fewer than two of them, with the error of
    [pd.qcut] that its bin edges are not unique; with two customers or more
    it completes and scores every customer, whatever the metrics are: equal
    metrics never make it abort, and with two, three or four customers it
    completes with as many scores as customers, fewer than five. *)
Theorem scoring_aborts_only_below_two (rfm : list rfm_row) :
  Forall (fun c => Recency c <> None) rfm ->
  if (length rfm <? 2)%nat
  then assign_scores rfm = Raise BinEdgesNotUnique
  else exists table, assign_scores rfm = Ok table /\ length table = length rfm.
Proof.
  intros Hna. destruct (Nat.ltb_spec (length rfm) 2) as [Hlt | Hge].
  - apply assign_scores_too_few. assumption.
  - eexists. split; [apply assign_scores_completes; assumption |].
    destruct (Recency_column_notna rfm Hna) as [_ HR].
    apply scored_table_length.
    + rewrite inverted_scores_length. assumption.
    + rewrite direct_scores_length.
      apply (proj2 (Frequency_column_values rfm)).
    + rewrite direct_scores_length.
      apply (proj2 (Monetary_column_values rfm)).
Qed.

Lemma scoring_aborts_only_below_two_witness :
  Forall (fun c => Recency c <> None) two_customers
  /\ exists table,
       assign_scores two_customers = Ok table
       /\ length table = length two_customers.
Proof.
  assert (H : Forall (fun c => Recency c <> None) two_customers)
    by (repeat constructor; discriminate).
  split; [exact H |].
  exact (scoring_aborts_only_below_two two_customers H).
Defined.

(** C2, as stated, fails. With two customers, fewer than five, the scoring
    raises nothing: it completes and gives the scores 5 and 1, and the run on
    the log of these two customers completes as well. *)
Lemma scoring_two_customers_completes :
  (length two_customers < 5)%nat
  /\ assign_scores two_customers
     = Ok [ with_scores (nth 0 two_customers sample_customer) 5 1 1;
            with_scores (nth 1 two_customers sample_customer) 1 5 5 ]
  /\ (exists table, run sample_parsers sample_log = Completed table)
  /\ ~ (exists e, assign_scores two_customers = Raise e).
Proof.
  split; [simpl; lia |].
  split; [reflexivity |].
  split; [eexists; reflexivity |].
  intros (e & H). vm_compute in H. discriminate.
Qed.



(** C10. Of two customers of one scored table, the one with the strictly
    greater Frequency has a Frequency score at least as high, the one with
    the strictly greater Monetary value a Monetary score at least as high,
    and the one with the strictly greater Recency a Recency score at most as
    high. *)
Theorem scores_monotone (rfm : list rfm_row) (table : list scored_row)
  (i j : nat) (A B : scored_row) :
  assign_scores rfm = Ok table ->
  nth_error table i = Some A ->
  nth_error table j = Some B ->
  (Frequency (customer B) < Frequency (customer A) -> F_score B <= F_score A)
  /\ ((Monetary (customer B) < Monetary (customer A))%Q ->
      M_score B <= M_score A)
  /\ (forall ra rb,
        Recency (customer A) = Some ra -> Recency (customer B) = Some rb ->
        rb < ra -> R_score A <= R_score B).
Proof.
  intros Hrun HA HB.
  destruct (assign_scores_Ok rfm table Hrun) as [Hn Hna].
  rewrite (assign_scores_completes rfm Hn Hna) in Hrun.
  injection Hrun as <-.
  apply scored_table_nth in HA as (HcA & HrA & HfA & HmA).
  apply scored_table_nth in HB as (HcB & HrB & HfB & HmB).
  split; [| split].
  - intros Hlt.
    apply (direct_scores_order (Frequency_values rfm) j i
             (inject_Z (Frequency (customer B)))
             (inject_Z (Frequency (customer A)))); try assumption.
    + unfold Frequency_values. rewrite (map_nth_error _ _ _ HcB). reflexivity.
    + unfold Frequency_values. rewrite (map_nth_error _ _ _ HcA). reflexivity.
    + left. rewrite <- Zlt_Qlt. assumption.
  - intros Hlt.
    apply (direct_scores_order (Monetary_values rfm) j i
             (Monetary (customer B)) (Monetary (customer A))); try assumption.
    + unfold Monetary_values. rewrite (map_nth_error _ _ _ HcB). reflexivity.
    + unfold Monetary_values. rewrite (map_nth_error _ _ _ HcA). reflexivity.
    + left. assumption.
  - intros ra rb Hra Hrb Hlt.
    destruct (Recency_column_notna rfm Hna) as [Ecol _].
    assert (Hval : forall k c d,
               nth_error rfm k = Some c -> Recency c = Some d ->
               nth_error (Recency_values rfm) k = Some (inject_Z d)).
    { intros k c d Hk Hd.
      assert (Hcol : nth_error (Recency_column rfm) k = Some (Some (inject_Z d))).
      { unfold Recency_column. rewrite (map_nth_error _ _ _ Hk), Hd.
        reflexivity. }
      rewrite Ecol in Hcol.
      apply nth_error_map_inv in Hcol as (x & Hx & E).
      injection E as <-. assumption. }
    apply (inverted_scores_order (Recency_values rfm) j i
             (inject_Z rb) (inject_Z ra)); try assumption.
    + apply (Hval j (customer B)); assumption.
    + apply (Hval i (customer A)); assumption.
    + left. rewrite <- Zlt_Qlt. assumption.
Qed.

Lemma scores_monotone_witness :
  assign_scores six_customers
  = Ok (scored_table six_customers
          [5; 5; 4; 3; 2; 1] [5; 4; 3; 2; 1; 1] [5; 4; 3; 2; 1; 1])
  /\ F_score (with_scores (nth 5 six_customers sample_customer) 1 1 1)
     <= F_score (with_scores (nth 0 six_customers sample_customer) 5 5 5)
  /\ M_score (with_scores (nth 5 six_customers sample_customer) 1 1 1)
     <= M_score (with_scores (nth 0 six_customers sample_customer) 5 5 5)
  /\ R_score (with_scores (nth 5 six_customers sample_customer) 1 1 1)
     <= R_score (with_scores (nth 0 six_customers sample_customer) 5 5 5).
Proof.
  assert (H : assign_scores six_customers
              = Ok (scored_table six_customers
                      [5; 5; 4; 3; 2; 1] [5; 4; 3; 2; 1; 1] [5; 4; 3; 2; 1; 1]))
    by reflexivity.
  split; [exact H |].
  destruct (scores_monotone six_customers _ 0 5
              (with_scores (nth 0 six_customers sample_customer) 5 5 5)
              (with_scores (nth 5 six_customers sample_customer) 1 1 1)
              H eq_refl eq_refl) as (HF & HM & _).
  destruct (scores_monotone six_customers _ 5 0
              (with_scores (nth 5 six_customers sample_customer) 1 1 1)
              (with_scores (nth 0 six_customers sample_customer) 5 5 5)
              H eq_refl eq_refl) as (_ & _ & HR).
  split; [apply HF; simpl; lia |].
  split; [apply HM; reflexivity |].
  apply (HR 365 1); [reflexivity | reflexivity | lia].
Defined.

(** The most recent, most frequent and highest spending of the six sample
    customers scores 5 on Recency and on Frequency and is a Champion. *)
Example best_customer_is_champion :
  option_map segment_customer
    (nth_error
       (scored_table six_customers
          [5; 5; 4; 3; 2; 1] [5; 4; 3; 2; 1; 1] [5; 4; 3; 2; 1; 1]) 0)
  = Some "Champions"%string.
Proof. reflexivity. Qed.

(** * Further properties of the script *)

(** ** The cleaner narrows the table *)

Lemma unique_from_length {A : Type} (eqb : A -> A -> bool) (l seen : list A) :
  (length (unique_from eqb seen l) <= length l)%nat.
Proof.
  revert seen. induction l as [| x l IH]; intros seen; simpl; [lia |].
  destruct (existsb (eqb x) seen); simpl.
  - specialize (IH seen). lia.
  - specialize (IH (x :: seen)). lia.
Qed.

Lemma unique_from_pairwise {A : Type} (eqb : A -> A -> bool) (l seen : list A) :
  ForallOrdPairs (fun a b => eqb b a = false) (unique_from eqb seen l)
  /\ Forall (fun b => existsb (eqb b) seen = false) (unique_from eqb seen l).
Proof.
  revert seen. induction l as [| x l IH]; intros seen; simpl.
  - split; constructor.
  - destruct (existsb (eqb x) seen) eqn:E; [apply IH |].
    destruct (IH (x :: seen)) as [Hp Hs]. split.
    + constructor; [| assumption].
      eapply Forall_impl; [| exact Hs]. intros b Hb. simpl in Hb.
      apply orb_false_elim in Hb. tauto.
    + constructor; [assumption |].
      eapply Forall_impl; [| exact Hs]. intros b Hb. simpl in Hb.
      apply orb_false_elim in Hb. tauto.
Qed.

(** Line 12 leaves no two rows that are duplicates of each other, and a
    second [drop_duplicates] changes nothing. *)
Theorem drop_duplicates_distinct (df : DataFrame) :
  pairwise_distinct (drop_duplicates df)
  /\ drop_duplicates (drop_duplicates df) = drop_duplicates df
  /\ (length (drop_duplicates df) <= length df)%nat.
Proof.
  assert (H : pairwise_distinct (drop_duplicates df))
    by apply (proj1 (unique_from_pairwise row_eqb df [])).
  split; [exact H |]. split.
  - unfold drop_duplicates at 1. unfold unique.
    apply unique_from_distinct; [reflexivity | exact H].
  - apply unique_from_length.
Qed.

Lemma clean_length (P : Parsers) (df : DataFrame) :
  (length (clean P df) <= length df)%nat.
Proof.
  unfold clean. rewrite length_map.
  eapply Nat.le_trans; [apply filter_length_le |].
  eapply Nat.le_trans; [apply filter_length_le |].
  rewrite length_map.
  eapply Nat.le_trans; [apply filter_length_le |].
  rewrite length_map. apply unique_from_length.
Qed.

(** The cleaner never adds a row and never invents one: the cleaned table
    is no longer than the raw one, and each of its rows is a row of the raw
    table with its invoice number and its unnamed columns untouched, its
    quantity, price and customer coerced to numbers, the customer truncated
    to an integer, and its date parsed. *)
Theorem clean_narrows (P : Parsers) (df : DataFrame) :
  (length (clean P df) <= length df)%nat
  /\ forall r, In r (clean P df) ->
       exists r0, In r0 df
         /\ InvoiceNo r = InvoiceNo r0
         /\ others r = others r0
         /\ Quantity r = to_numeric P (Quantity r0)
         /\ UnitPrice r = to_numeric P (UnitPrice r0)
         /\ CustomerID r = astype_int (to_numeric P (CustomerID r0))
         /\ InvoiceDate r = to_datetime P (InvoiceDate r0).
Proof.
  split; [apply clean_length |].
  intros r Hr. apply clean_In in Hr as (r0 & H0 & _ & _ & _ & ->).
  exists r0. split; [eapply unique_from_In; exact H0 |].
  repeat split.
Qed.

(** ** The total price of a cleaned row *)

Lemma gt_numeric (v : value) (c : Q) :
  gt v c = true -> exists q, numeric v = Some q /\ (c < q)%Q.
Proof.
  unfold gt. destruct (numeric v) as [q |]; [| discriminate].
  intros H. exists q. split; [reflexivity |].
  apply Qltb_lt. exact H.
Qed.

Lemma mul_numeric (v w : value) (a b : Q) :
  numeric v = Some a -> numeric w = Some b ->
  exists t, numeric (mul v w) = Some t /\ (t == a * b)%Q.
Proof.
  destruct v as [| x | x | x | x], w as [| y | y | y | y]; simpl;
    try discriminate; intros Ha Hb;
    injection Ha as <-; injection Hb as <-;
    eexists; (split; [reflexivity |]);
    reflexivity.
Qed.

Lemma cleaned_total_price (r : row) :
  Cleaned r ->
  exists q p t,
    numeric (Quantity r) = Some q /\ numeric (UnitPrice r) = Some p
    /\ numeric (total_price r) = Some t
    /\ (t == q * p)%Q /\ (0 < q)%Q /\ (0 < p)%Q /\ (0 < t)%Q.
Proof.
  intros (Hq & Hp & _ & _ & _ & Ht).
  destruct (gt_numeric _ _ Hq) as (q & Eq & Hq0).
  destruct (gt_numeric _ _ Hp) as (p & Ep & Hp0).
  destruct (mul_numeric _ _ q p Eq Ep) as (t & Et & Heq).
  exists q, p, t. unfold total_price. rewrite Ht.
  repeat split; try assumption.
  rewrite Heq. apply Qmult_lt_0_compat; assumption.
Qed.


(** ** The cleaner keeps what is valid *)

Lemma unique_from_represented {A : Type} (eqb : A -> A -> bool)
  (l seen : list A) (x : A) :
  In x l ->
  (exists y, In y seen /\ eqb x y = true)
  \/ In x (unique_from eqb seen l)
  \/ (exists y, In y (unique_from eqb seen l) /\ eqb x y = true).
Proof.
  revert seen. induction l as [| h l IH]; intros seen; simpl; [tauto |].
  intros [-> | Hx].
  - destruct (existsb (eqb x) seen) eqn:E.
    + left. apply existsb_exists in E. exact E.
    + right. left. left. reflexivity.
  - destruct (existsb (eqb h) seen) eqn:E; [apply IH; assumption |].
    destruct (IH (h :: seen) Hx) as [(y & [<- | Hy] & Hxy) | [H | (y & Hy & Hxy)]].
    + right. right. exists h. split; [left; reflexivity | assumption].
    + left. eauto.
    + right. left. right. assumption.
    + right. right. exists y. split; [right; assumption | assumption].
Qed.

Lemma value_eqb_true (v w : value) :
  value_eqb v w = true ->
  v = w \/ exists a b, numeric v = Some a /\ numeric w = Some b /\ (a == b)%Q.
Proof.
  destruct v as [| x | x | x | x], w as [| y | y | y | y]; simpl;
    try discriminate; intros H.
  - left. reflexivity.
  - right. apply Qeq_bool_iff in H. eauto.
  - right. apply Qeq_bool_iff in H. eauto.
  - right. apply Qeq_bool_iff in H. eauto.
  - right. apply Qeq_bool_iff in H. eauto.
  - left. apply String.eqb_eq in H. congruence.
  - left. apply Z.eqb_eq in H. congruence.
Qed.

Section Duplicates.

Variable P : Parsers.
Variables v w : value.
Hypothesis same : value_eqb v w = true.

Lemma numeric_to_numeric (u : value) (a : Q) :
  numeric u = Some a -> to_numeric P u = u /\ notna u = true.
Proof. destruct u; simpl; try discriminate; auto. Qed.

Lemma duplicate_notna : notna v = notna w.
Proof.
  destruct (value_eqb_true v w same) as [-> | (a & b & Ha & Hb & _)];
    [reflexivity |].
  rewrite (proj2 (numeric_to_numeric v a Ha)),
    (proj2 (numeric_to_numeric w b Hb)). reflexivity.
Qed.

Lemma duplicate_to_numeric_notna :
  notna (to_numeric P v) = notna (to_numeric P w).
Proof.
  destruct (value_eqb_true v w same) as [-> | (a & b & Ha & Hb & _)];
    [reflexivity |].
  destruct (numeric_to_numeric v a Ha) as [-> ->].
  destruct (numeric_to_numeric w b Hb) as [-> ->]. reflexivity.
Qed.

Lemma duplicate_startswith : str_startswith_C v = str_startswith_C w.
Proof.
  destruct (value_eqb_true v w same) as [-> | (a & b & Ha & Hb & _)];
    [reflexivity |].
  destruct v, w; simpl in *; try discriminate; reflexivity.
Qed.

Lemma duplicate_gt (c : Q) :
  gt (to_numeric P v) c = gt (to_numeric P w) c.
Proof.
  destruct (value_eqb_true v w same) as [-> | (a & b & Ha & Hb & Hab)];
    [reflexivity |].
  rewrite (proj1 (numeric_to_numeric v a Ha)),
    (proj1 (numeric_to_numeric w b Hb)).
  unfold gt. rewrite Ha, Hb. f_equal.
  apply eq_true_iff_eq. rewrite !Qle_bool_iff, Hab. reflexivity.
Qed.

End Duplicates.

(** The three filters of the cleaner do not tell duplicates apart. *)
Lemma duplicate_rows_filtered_alike (P : Parsers) (r r' : row) :
  row_eqb r r' = true ->
  has_required (coerce_numeric P r) = has_required (coerce_numeric P r')
  /\ not_cancelled (convert_types P (coerce_numeric P r))
     = not_cancelled (convert_types P (coerce_numeric P r'))
  /\ positive (convert_types P (coerce_numeric P r))
     = positive (convert_types P (coerce_numeric P r')).
Proof.
  unfold row_eqb. intros H.
  repeat (apply andb_prop in H as [H ?]).
  unfold has_required, not_cancelled, positive; simpl.
  rewrite (duplicate_to_numeric_notna P (CustomerID r) (CustomerID r')),
    (duplicate_to_numeric_notna P (Quantity r) (Quantity r')),
    (duplicate_to_numeric_notna P (UnitPrice r) (UnitPrice r')),
    (duplicate_notna P (InvoiceDate r) (InvoiceDate r')),
    (duplicate_startswith (InvoiceNo r) (InvoiceNo r')),
    (duplicate_gt P (Quantity r) (Quantity r')),
    (duplicate_gt P (UnitPrice r) (UnitPrice r')) by assumption.
  repeat split.
Qed.

(** A raw row that passes the three filters of the cleaner is not lost:
    the cleaned table holds the cleaned form of that row or, when line 12
    dropped it as a duplicate, of the earlier row it duplicates. *)
Theorem valid_rows_survive (P : Parsers) (df : DataFrame) (r0 : row) :
  In r0 df ->
  has_required (coerce_numeric P r0) = true ->
  not_cancelled (convert_types P (coerce_numeric P r0)) = true ->
  positive (convert_types P (coerce_numeric P r0)) = true ->
  exists r1, In r1 df
    /\ (r1 = r0 \/ row_eqb r0 r1 = true)
    /\ In (add_total_price (convert_types P (coerce_numeric P r1))) (clean P df).
Proof.
  intros Hin Hreq Hcan Hpos.
  destruct (unique_from_represented row_eqb df [] r0 Hin)
    as [(y & [] & _) | [H | (r1 & H & E)]].
  - exists r0. split; [assumption |]. split; [left; reflexivity |].
    apply clean_In. exists r0. auto.
  - destruct (duplicate_rows_filtered_alike P r0 r1 E) as (E1 & E2 & E3).
    exists r1. split; [eapply unique_from_In; exact H |].
    split; [right; assumption |].
    apply clean_In. exists r1.
    rewrite <- E1, <- E2, <- E3. auto.
Qed.

(** ** The reference date *)

Lemma max_timestamp_NA (col : list value) (t : Z) :
  max_timestamp col = NA -> ~ In (Timestamp t) col.
Proof.
  intros H Hin. destruct (max_timestamp_exists col t Hin) as (m & E).
  congruence.
Qed.

(** Line 31. The reference date is NaT exactly when no row has a date;
    otherwise it is one day after a date of the table that no date of the
    table exceeds. *)
Theorem reference_date_one_day_after_latest (df : DataFrame) :
  (reference_date df = NA <->
   forall r t, In r df -> InvoiceDate r <> Timestamp t)
  /\ (forall r t, In r df -> InvoiceDate r = Timestamp t ->
        exists m, reference_date df = Timestamp (m + day_ns)
                  /\ In (Timestamp m) (map InvoiceDate df)
                  /\ t <= m /\ t < m + day_ns).
Proof.
  unfold reference_date. split; [split |].
  - intros H r t Hr E.
    destruct (max_timestamp_shape (map InvoiceDate df)) as [Hm | (m & Hm)];
      rewrite Hm in H; [| discriminate].
    apply (max_timestamp_NA _ t Hm). rewrite <- E. apply in_map. assumption.
  - intros H.
    destruct (max_timestamp_shape (map InvoiceDate df)) as [Hm | (m & Hm)];
      rewrite Hm; [reflexivity |].
    apply max_timestamp_In in Hm. apply in_map_iff in Hm as (r & E & Hr).
    exfalso. exact (H r m Hr E).
  - intros r t Hr E.
    assert (Hin : In (Timestamp t) (map InvoiceDate df))
      by (rewrite <- E; apply in_map; assumption).
    destruct (max_timestamp_exists _ _ Hin) as (m & Hm).
    pose proof (max_timestamp_upper _ _ _ Hm Hin).
    exists m. rewrite Hm. simpl.
    split; [reflexivity |]. split; [apply max_timestamp_In; assumption |].
    unfold day_ns. lia.
Qed.

(** ** One row per customer *)

Lemma sorted_NoDup_strict (l : list Z) :
  StronglySorted Z.le l -> NoDup l -> StronglySorted Z.lt l.
Proof.
  induction 1 as [| a l Hs IH Ha]; intros Hnd; constructor.
  - apply IH. inversion Hnd. assumption.
  - inversion Hnd as [| ? ? Hnotin _]; subst.
    rewrite Forall_forall in *. intros z Hz.
    specialize (Ha z Hz).
    assert (z <> a) by (intros ->; contradiction). lia.
Qed.

Lemma customer_key_Int (r : row) (k : Z) :
  customer_key r = Some k <-> CustomerID r = Int k.
Proof.
  unfold customer_key. destruct (CustomerID r); split; intros H;
    try discriminate; congruence.
Qed.

(** Lines 36 to 40. The aggregation returns one row per customer of the
    table, in the ascending order of the customer identifiers, no customer
    twice and none left out. *)
Theorem one_row_per_customer (reference : value) (df : DataFrame) :
  map rfm_CustomerID (aggregate reference df) = group_keys df
  /\ StronglySorted Z.lt (group_keys df)
  /\ NoDup (group_keys df)
  /\ (forall k, In k (group_keys df) <->
                exists r, In r df /\ CustomerID r = Int k).
Proof.
  split; [| split; [| split]].
  - unfold aggregate. rewrite map_map. simpl. apply map_id.
  - apply sorted_NoDup_strict; [| apply group_keys_NoDup].
    unfold group_keys. apply sort_keys_sorted.
  - apply group_keys_NoDup.
  - intros k. split.
    + intros H. apply group_keys_In in H as (r & Hr & Hk).
      exists r. split; [assumption | apply customer_key_Int; assumption].
    + intros (r & Hr & Hk). apply (group_keys_complete df r k Hr).
      apply customer_key_Int. assumption.
Qed.

(** ** The properties above, on the sample log *)


Lemma valid_rows_survive_witness :
  In (raw_row "536365" 6 "2010-12-01 08:26:00" (255 # 100) 17850) sample_log
  /\ exists r1, In r1 sample_log
       /\ (r1 = raw_row "536365" 6 "2010-12-01 08:26:00" (255 # 100) 17850
           \/ row_eqb
                (raw_row "536365" 6 "2010-12-01 08:26:00" (255 # 100) 17850)
                r1 = true)
       /\ In (add_total_price
                (convert_types sample_parsers
                   (coerce_numeric sample_parsers r1)))
            (clean sample_parsers sample_log).
Proof.
  assert (H : In (raw_row "536365" 6 "2010-12-01 08:26:00" (255 # 100) 17850)
                sample_log) by (left; reflexivity).
  split; [exact H |].
  exact (valid_rows_survive sample_parsers sample_log _ H
           eq_refl eq_refl eq_refl).
Defined.

(** ** The metrics of one customer *)

Lemma aggregate_In (reference : value) (df : DataFrame) (c : rfm_row) :
  In c (aggregate reference df) <->
  exists k, In k (group_keys df)
            /\ c = rfm_of_group reference k (group df k).
Proof.
  unfold aggregate. rewrite in_map_iff. split.
  - intros (k & <- & Hk). eauto.
  - intros (k & Hk & ->). eauto.
Qed.

Lemma unique_from_nil_iff {A : Type} (eqb : A -> A -> bool) (l : list A) :
  unique_from eqb [] l = [] <-> l = [].
Proof.
  destruct l as [| x l]; simpl; split; intros H;
    try reflexivity; discriminate.
Qed.

Lemma filter_nil_iff {A : Type} (p : A -> bool) (l : list A) :
  filter p l = [] <-> forall x, In x l -> p x = false.
Proof.
  induction l as [| y l IH]; simpl.
  - split; [intros _ x [] | reflexivity].
  - destruct (p y) eqn:E; split.
    + discriminate.
    + intros H. specialize (H y (or_introl eq_refl)). congruence.
    + intros H x [-> | Hx]; [assumption | apply IH; assumption].
    + intros H. apply IH. intros x Hx. apply H. right. assumption.
Qed.

Lemma nunique_bounds (col : list value) :
  0 <= nunique col <= Z.of_nat (length col)
  /\ (nunique col = 0 <-> forall v, In v col -> v = NA).
Proof.
  unfold nunique, unique. split.
  - split; [lia |]. apply Nat2Z.inj_le.
    eapply Nat.le_trans; [apply unique_from_length |].
    apply filter_length_le.
  - split.
    + intros H v Hv.
      assert (E : unique_from value_eqb [] (filter notna col) = [])
        by (apply length_zero_iff_nil; lia).
      apply unique_from_nil_iff in E.
      pose proof (proj1 (filter_nil_iff notna col) E v Hv) as Hna.
      destruct v; simpl in Hna; try discriminate. reflexivity.
    + intros H.
      assert (E : filter notna col = []).
      { apply filter_nil_iff. intros v Hv. rewrite (H v Hv). reflexivity. }
      rewrite E. reflexivity.
Qed.

(** Line 38. The Frequency of a customer lies between 0 and the number of
    its rows; it is 0 exactly when every invoice number of the customer is
    null, which line 18 does not exclude. *)
Theorem frequency_bounds (reference : value) (df : DataFrame) (c : rfm_row) :
  In c (aggregate reference df) ->
  0 <= Frequency c
       <= Z.of_nat (length (group df (rfm_CustomerID c)))
  /\ (Frequency c = 0 <->
      forall r, In r df -> CustomerID r = Int (rfm_CustomerID c) ->
                InvoiceNo r = NA).
Proof.
  intros Hc. apply aggregate_In in Hc as (k & Hk & ->). simpl.
  destruct (nunique_bounds (map InvoiceNo (group df k))) as [Hb Hz].
  rewrite length_map in Hb. split; [exact Hb |].
  rewrite Hz. split.
  - intros H r Hr Hid. apply H. apply in_map. apply group_In.
    split; [assumption | apply customer_key_Int; assumption].
  - intros H v Hv. apply in_map_iff in Hv as (r & <- & Hr).
    apply group_In in Hr as [Hr Hid]. apply H; [assumption |].
    apply customer_key_Int. assumption.
Qed.

Lemma frequency_bounds_witness :
  In (rfm_of_group (reference_date (clean sample_parsers sample_log)) 17850
        (group (clean sample_parsers sample_log) 17850))
    (aggregate (reference_date (clean sample_parsers sample_log))
       (clean sample_parsers sample_log))
  /\ 0 <= nunique (map InvoiceNo (group (clean sample_parsers sample_log) 17850))
       <= Z.of_nat (length (group (clean sample_parsers sample_log) 17850)).
Proof.
  assert (H : In (rfm_of_group
                    (reference_date (clean sample_parsers sample_log)) 17850
                    (group (clean sample_parsers sample_log) 17850))
                (aggregate (reference_date (clean sample_parsers sample_log))
                   (clean sample_parsers sample_log)))
    by (vm_compute; right; left; reflexivity).
  split; [exact H |].
  exact (proj1 (frequency_bounds _ _ _ H)).
Defined.

Lemma sum_nonneg (col : list value) :
  (forall w s, In w col -> numeric w = Some s -> (0 <= s)%Q) ->
  (0 <= sum col)%Q.
Proof.
  induction col as [| w col IH]; intros H; simpl; [apply Qle_refl |].
  assert (IH' : (0 <= sum col)%Q).
  { apply IH. intros w' s Hw. apply H. right. assumption. }
  destruct (numeric w) as [s |] eqn:E; [| exact IH'].
  assert (Hs : (0 <= s)%Q) by (apply (H w s); [left; reflexivity | assumption]).
  change (0 + 0 <= s + sum col)%Q. apply Qplus_le_compat; assumption.
Qed.

(** A sum of cells none of which is negative is at least each of them. *)
Lemma sum_member_le (col : list value) (v : value) (t : Q) :
  (forall w s, In w col -> numeric w = Some s -> (0 <= s)%Q) ->
  In v col -> numeric v = Some t -> (t <= sum col)%Q.
Proof.
  induction col as [| w col IH]; intros H Hv Ht; [destruct Hv |].
  assert (Hrest : forall w' s, In w' col -> numeric w' = Some s -> (0 <= s)%Q).
  { intros w' s Hw. apply H. right. assumption. }
  pose proof (sum_nonneg col Hrest) as H0.
  simpl. destruct Hv as [-> | Hv].
  - rewrite Ht. apply (Qle_trans _ (t + 0)).
    + rewrite Qplus_0_r. apply Qle_refl.
    + apply Qplus_le_compat; [apply Qle_refl | assumption].
  - specialize (IH Hrest Hv Ht).
    destruct (numeric w) as [s |] eqn:E; [| assumption].
    assert (Hs : (0 <= s)%Q)
      by (apply (H w s); [left; reflexivity | assumption]).
    apply (Qle_trans _ (0 + t)).
    + rewrite Qplus_0_l. apply Qle_refl.
    + apply Qplus_le_compat; assumption.
Qed.

(** Line 39 on the cleaner's output. The Monetary value of every customer
    is strictly positive, and no purchase of the customer exceeds it: the
    total prices it sums are all positive. *)
Theorem monetary_positive (P : Parsers) (raw : DataFrame) (reference : value)
  (c : rfm_row) :
  In c (aggregate reference (clean P raw)) ->
  (0 < Monetary c)%Q
  /\ forall r, In r (clean P raw) -> CustomerID r = Int (rfm_CustomerID c) ->
       exists t, numeric (total_price r) = Some t
                 /\ (0 < t)%Q /\ (t <= Monetary c)%Q.
Proof.
  intros Hc. apply aggregate_In in Hc as (k & Hk & ->). simpl.
  pose proof (clean_Cleaned P raw) as Hcl. rewrite Forall_forall in Hcl.
  assert (Hpos : forall r, In r (clean P raw) ->
            exists t, numeric (total_price r) = Some t /\ (0 < t)%Q).
  { intros r Hr.
    destruct (cleaned_total_price r (Hcl r Hr))
      as (q & p & t & _ & _ & Et & _ & _ & _ & Ht).
    eauto. }
  assert (Hnn : forall w s,
            In w (map total_price (group (clean P raw) k)) ->
            numeric w = Some s -> (0 <= s)%Q).
  { intros w s Hw Es. apply in_map_iff in Hw as (r & <- & Hr).
    apply group_In in Hr as [Hr _].
    destruct (Hpos r Hr) as (t & Et & Ht).
    rewrite Et in Es. injection Es as <-. apply Qlt_le_weak. assumption. }
  assert (Hmem : forall r, In r (clean P raw) -> CustomerID r = Int k ->
            exists t, numeric (total_price r) = Some t /\ (0 < t)%Q
                      /\ (t <= sum (map total_price (group (clean P raw) k)))%Q).
  { intros r Hr Hid. destruct (Hpos r Hr) as (t & Et & Ht).
    exists t. split; [assumption | split; [assumption |]].
    apply (sum_member_le _ (total_price r)); [assumption | | assumption].
    apply in_map. apply group_In. split; [assumption |].
    apply customer_key_Int. assumption. }
  split; [| exact Hmem].
  apply group_keys_In in Hk as (r & Hr & Hid).
  apply customer_key_Int in Hid.
  destruct (Hmem r Hr Hid) as (t & _ & Ht & Hle).
  eapply Qlt_le_trans; eassumption.
Qed.

Lemma monetary_positive_witness :
  In (rfm_of_group (reference_date (clean sample_parsers sample_log)) 12680
        (group (clean sample_parsers sample_log) 12680))
    (aggregate (reference_date (clean sample_parsers sample_log))
       (clean sample_parsers sample_log))
  /\ (0 < sum (map total_price (group (clean sample_parsers sample_log) 12680)))%Q.
Proof.
  assert (H : In (rfm_of_group
                    (reference_date (clean sample_parsers sample_log)) 12680
                    (group (clean sample_parsers sample_log) 12680))
                (aggregate (reference_date (clean sample_parsers sample_log))
                   (clean sample_parsers sample_log)))
    by (vm_compute; left; reflexivity).
  split; [exact H |].
  exact (proj1 (monetary_positive sample_parsers sample_log _ _ H)).
Defined.

Lemma group_dates_In (df : DataFrame) (k t : Z) :
  In (Timestamp t) (map InvoiceDate (group df k)) <->
  exists r, In r df /\ CustomerID r = Int k /\ InvoiceDate r = Timestamp t.
Proof.
  rewrite in_map_iff. split.
  - intros (r & E & Hr). apply group_In in Hr as [Hr Hid].
    apply customer_key_Int in Hid. eauto.
  - intros (r & Hr & Hid & E). exists r. split; [assumption |].
    apply group_In. split; [assumption |].
    apply customer_key_Int. assumption.
Qed.

(** The latest date of a customer is a date of the table, so the latest
    date of the table is no earlier. *)
Lemma group_max_le (df : DataFrame) (k m : Z) :
  max_timestamp (map InvoiceDate (group df k)) = Timestamp m ->
  exists M, max_timestamp (map InvoiceDate df) = Timestamp M /\ m <= M.
Proof.
  intros Hm.
  assert (Hin : In (Timestamp m) (map InvoiceDate df)).
  { apply max_timestamp_In in Hm.
    apply group_dates_In in Hm as (r & Hr & _ & E).
    rewrite <- E. apply in_map. assumption. }
  destruct (max_timestamp_exists _ _ Hin) as (M & HM).
  exists M. split; [assumption |].
  exact (max_timestamp_upper _ _ _ HM Hin).
Qed.

(** Lines 31 and 37, on any table. The Recency of a customer is NaN exactly
    when none of its rows has a date, as happens to a customer whose dates
    all failed to parse on line 21; when it is a number, it is at least one
    day. *)
Theorem recency_nan_iff_undated (df : DataFrame) (c : rfm_row) :
  In c (aggregate (reference_date df) df) ->
  (Recency c = None <->
   forall r t, In r df -> CustomerID r = Int (rfm_CustomerID c) ->
               InvoiceDate r <> Timestamp t)
  /\ (forall d, Recency c = Some d -> 1 <= d).
Proof.
  intros Hc. apply aggregate_In in Hc as (k & Hk & ->).
  unfold rfm_of_group, reference_date; simpl.
  destruct (max_timestamp_shape (map InvoiceDate (group df k)))
    as [E | (m & E)].
  - rewrite E. split.
    + split; [| intros _; destruct (add_one_day _); reflexivity].
      intros _ r t Hr Hid Ht. apply (max_timestamp_NA _ t E).
      apply group_dates_In. eauto.
    + intros d H. destruct (add_one_day _); discriminate.
  - destruct (group_max_le df k m E) as (M & HM & Hle).
    rewrite E, HM. simpl. split.
    + split; [discriminate |]. intros H. exfalso.
      apply max_timestamp_In in E.
      apply group_dates_In in E as (r & Hr & Hid & Ht).
      exact (H r m Hr Hid Ht).
    + intros d H. injection H as <-.
      apply Z.div_le_lower_bound; unfold day_ns; lia.
Qed.

Lemma recency_nan_iff_undated_witness :
  In (rfm_of_group (reference_date (clean sample_parsers unparsable_date_log))
        17850 (group (clean sample_parsers unparsable_date_log) 17850))
    (aggregate (reference_date (clean sample_parsers unparsable_date_log))
       (clean sample_parsers unparsable_date_log))
  /\ (forall r t, In r (clean sample_parsers unparsable_date_log) ->
        CustomerID r = Int 17850 -> InvoiceDate r <> Timestamp t).
Proof.
  assert (H : In (rfm_of_group
                    (reference_date (clean sample_parsers unparsable_date_log))
                    17850
                    (group (clean sample_parsers unparsable_date_log) 17850))
                (aggregate
                   (reference_date (clean sample_parsers unparsable_date_log))
                   (clean sample_parsers unparsable_date_log)))
    by (vm_compute; left; reflexivity).
  split; [exact H |].
  exact (proj1 (proj1 (recency_nan_iff_undated _ _ H)) eq_refl).
Defined.

(** Lines 31 and 37 on the cleaner's output. When some date of the cleaned
    table has parsed, some customer has the Recency 1: the one who bought
    on the latest date of the table. With the bound above, the smallest
    Recency of a run is exactly one day. *)
Theorem latest_customer_recency_one (P : Parsers) (raw : DataFrame) :
  reference_date (clean P raw) <> NA ->
  exists c, In c (aggregate (reference_date (clean P raw)) (clean P raw))
            /\ Recency c = Some 1.
Proof.
  intros Href. unfold reference_date in *.
  destruct (max_timestamp_shape (map InvoiceDate (clean P raw)))
    as [E | (M & E)]; [rewrite E in Href; contradiction Href; reflexivity |].
  pose proof (max_timestamp_In _ _ E) as Hin.
  apply in_map_iff in Hin as (r & Hdate & Hr).
  pose proof (clean_Cleaned P raw) as Hcl. rewrite Forall_forall in Hcl.
  destruct (Hcl r Hr) as (_ & _ & (z & Hid) & _).
  assert (Hk : In z (group_keys (clean P raw))).
  { apply (group_keys_complete _ r); [assumption |].
    apply customer_key_Int. assumption. }
  exists (rfm_of_group (add_one_day (max_timestamp (map InvoiceDate (clean P raw))))
            z (group (clean P raw) z)).
  split; [apply aggregate_In; eauto |].
  assert (Hg : In (Timestamp M) (map InvoiceDate (group (clean P raw) z))).
  { apply group_dates_In. eauto. }
  destruct (max_timestamp_exists _ _ Hg) as (m & Hm).
  pose proof (max_timestamp_upper _ _ _ Hm Hg) as Hle.
  destruct (group_max_le _ _ _ Hm) as (M' & HM' & Hle').
  rewrite E in HM'. injection HM' as <-.
  assert (m = M) by lia. subst m.
  simpl. rewrite E, Hm. simpl. f_equal.
  replace (M + day_ns - M) with (1 * day_ns) by lia.
  apply Z.div_mul. unfold day_ns. lia.
Qed.

Lemma latest_customer_recency_one_witness :
  reference_date (clean sample_parsers sample_log) <> NA
  /\ exists c,
       In c (aggregate (reference_date (clean sample_parsers sample_log))
               (clean sample_parsers sample_log))
       /\ Recency c = Some 1.
Proof.
  assert (H : reference_date (clean sample_parsers sample_log) <> NA)
    by (vm_compute; discriminate).
  split; [exact H |].
  exact (latest_customer_recency_one sample_parsers sample_log H).
Defined.
